(** * Compounding projections for the 3a-pillar calculator (main.py)

    A shallow embedding of [calculate_compounding] and of the part of the
    script body that composes the projections (the merge of the 3a series
    with the tax-benefit series and the terminal tax row), together with the
    properties the specification states about them.

    Numbers.  The program computes on numpy float64 arrays.  The embedding is
    written once over a carrier [F] with the operations the program uses
    (class [Arith]); every definition is executable at each instance.  Two
    instances are given: IEEE binary64 (Rocq's primitive floats), which is
    what the program runs on, and the canonical rationals [Qc], an exact
    ordered field.  Theorems that use no law of arithmetic are stated for
    every carrier.  Theorems that need algebra take the laws of an ordered
    commutative ring as a hypothesis ([ArithLaws]); rounding, overflow and
    NaN of binary64 are outside of those statements.

    Integers.  A Python int that enters the arithmetic ([0], [1], [7056]) is
    converted by [of_int].  numpy keeps [np.repeat] of an int as an int64
    array; on binary64 the two agree as long as the sums stay below 2^53, as
    the script's 7056 * 40 does.

    Data frames.  Every frame of the program carries pandas' default
    RangeIndex 0..len-1, so a column is a list and the index label of a cell
    is its position.  A missing cell (NaN produced by index alignment, or
    Python's None) is [None].

    Not modelled: the streamlit widgets and the division of their values by
    100, the charts ([make_chart_1]) and the formatted conclusion. *)

From Stdlib Require Import ZArith Lia Floats QArith Qcanon Ring.
From Stdlib Require Import Ascii DecimalString DecimalZ.
From stdpp Require Import base option list gmap strings.

Local Open Scope Z_scope.
Set Warnings "-inexact-float".

(** ** Exceptions and the error monad *)

Inductive exn := ValueError | IndexError | NameError.

Inductive result (A : Type) :=
  | Ok (a : A)
  | Raise (e : exn).
Arguments Ok {A} a.
Arguments Raise {A} e.

#[global] Instance result_ret : MRet result := @Ok.
#[global] Instance result_bind : MBind result := λ A B f r,
  match r with
  | Ok a => f a
  | Raise e => Raise e
  end.

(** ** The arithmetic the program uses *)

Class Arith (F : Type) := {
  of_int : Z → F;            (* conversion of a Python int *)
  add : F → F → F;
  sub : F → F → F;
  mul : F → F → F;
  leb : F → F → bool;
}.

Declare Scope arith_scope.
Delimit Scope arith_scope with F.
Infix "⊕" := add (at level 50, left associativity) : arith_scope.
Infix "⊖" := sub (at level 50, left associativity) : arith_scope.
Infix "⊗" := mul (at level 40, left associativity) : arith_scope.
Notation "x ≼ y" := (leb x y = true) (at level 70) : arith_scope.

(** The laws of an ordered commutative ring, for the carriers that have
    them. *)
Class ArithLaws (F : Type) `{Arith F} : Prop := {
  arith_ring :
    ring_theory (of_int 0) (of_int 1) add mul sub
                (λ x, sub (of_int 0) x) (@eq F);
  of_int_succ : ∀ n : Z, 0 ≤ n → of_int (n + 1) = add (of_int n) (of_int 1);
  leb_refl : ∀ x, leb x x = true;
  leb_trans : ∀ x y z, leb x y = true → leb y z = true → leb x z = true;
  leb_add_mono : ∀ x y z, leb x y = true → leb (add x z) (add y z) = true;
  leb_mul_nonneg : ∀ x y,
    leb (of_int 0) x = true → leb (of_int 0) y = true →
    leb (of_int 0) (mul x y) = true;
}.

(** ** numpy arrays *)

Section Numpy.
Context {A : Type}.

(** Position addressed by a Python index into a sequence of length [len]:
    negative indices count from the end. *)
Definition py_index (len : nat) (i : Z) : result nat :=
  if bool_decide (0 ≤ i < Z.of_nat len) then Ok (Z.to_nat i)
  else if bool_decide (- Z.of_nat len ≤ i < 0) then Ok (Z.to_nat (Z.of_nat len + i))
  else Raise IndexError.

(** [a[i]] *)
Definition getitem (a : list A) (i : Z) : result A :=
  k ← py_index (length a) i;
  match a !! k with
  | Some x => Ok x
  | None => Raise IndexError
  end.

(** [a[i] = x] *)
Definition setitem (a : list A) (i : Z) (x : A) : result (list A) :=
  k ← py_index (length a) i;
  Ok (<[k := x]> a).

(** [for x in xs: s = body(s, x)] *)
Fixpoint for_in {S X : Type} (xs : list X) (body : S → X → result S) (s : S)
  : result S :=
  match xs with
  | [] => Ok s
  | x :: xs' => s' ← body s x; for_in xs' body s'
  end.

(** [np.repeat(x, n)] for a scalar [x] *)
Definition np_repeat (x : A) (n : Z) : result (list A) :=
  if bool_decide (n < 0) then Raise ValueError
  else Ok (replicate (Z.to_nat n) x).
End Numpy.

(** [range(lo, hi)]; [np.arange(lo, hi)] has the same elements. *)
Definition range (lo hi : Z) : list Z := seqZ lo (hi - lo).
Definition np_arange (lo hi : Z) : list Z := range lo hi.

(** A cell of a float column; [None] is a missing value. *)
Abbreviation cell F := (option F) (only parsing).

Section Projection.
Context {F : Type} `{Arith F}.
Local Open Scope arith_scope.

(** [np.zeros(n)] *)
Definition np_zeros (n : Z) : result (list F) :=
  if bool_decide (n < 0) then Raise ValueError
  else Ok (replicate (Z.to_nat n) (of_int 0)).

(** [np.cumsum(a)]: running sums, left to right, starting from the first
    element itself. *)
Fixpoint cumsum_from (acc : F) (a : list F) : list F :=
  match a with
  | [] => []
  | x :: a' => let s := acc ⊕ x in s :: cumsum_from s a'
  end.

Definition np_cumsum (a : list F) : list F :=
  match a with
  | [] => []
  | x :: a' => x :: cumsum_from x a'
  end.

(** [a - b] on one-dimensional arrays, with numpy's broadcasting of an
    array of length 1. *)
Definition np_sub (a b : list F) : result (list F) :=
  if bool_decide (length a = length b) then Ok (zip_with sub a b)
  else match a, b with
       | [x], _ => Ok ((λ y, x ⊖ y) <$> b)
       | _, [y] => Ok ((λ x, x ⊖ y) <$> a)
       | _, _ => Raise ValueError
       end.

(** *** Data frames *)

Record DataFrame := mkDataFrame {
  Year : list Z;
  Total_Contributions : list (cell F);
  Accrued_Interest : list (cell F);
  Total_Value : list (cell F);
}.

(** [pd.DataFrame({...})] from four arrays: they must have one length. *)
Definition pd_DataFrame (year : list Z) (tc ai tv : list F)
  : result DataFrame :=
  if bool_decide (length tc = length year ∧ length ai = length year
                  ∧ length tv = length year)
  then Ok (mkDataFrame year (Some <$> tc) (Some <$> ai) (Some <$> tv))
  else Raise ValueError.

(** *** calculate_compounding *)

(** The body of the loop: [fv[i] = fv[i - 1] * (1 + rate) + contributions]. *)
Definition compounding_step (interest_rate yearly_contributions : F)
    (future_values : list F) (i : Z) : result (list F) :=
  prev ← getitem future_values (i - 1);
  setitem future_values i
          (prev ⊗ (of_int 1 ⊕ interest_rate) ⊕ yearly_contributions).

Definition calculate_compounding
    (interest_rate initial_investment yearly_contributions : F)
    (n_years : Z) : result DataFrame :=
  future_values ← np_zeros (n_years + 1);
  future_values ← setitem future_values 0 initial_investment;
  future_values ←
    for_in (range 1 (n_years + 1))
           (compounding_step interest_rate yearly_contributions)
           future_values;
  let future_values := drop 1 future_values in
  contributions ← np_repeat yearly_contributions n_years;
  let total_contributions := np_cumsum contributions in
  accrued_interest ← np_sub future_values total_contributions;
  pd_DataFrame (np_arange 1 (n_years + 1))
               total_contributions accrued_interest future_values.
End Projection.

Arguments DataFrame F : clear implicits.

(** ** Rows of a frame *)

Section Rows.
Context {F : Type}.

Record Row := mkRow {
  year : Z;
  totalContributions : cell F;
  accruedInterest : cell F;
  totalValue : cell F;
}.

(** [len(df)] and [df.iloc[k]] for a position [k] *)
Definition nrows (d : DataFrame F) : nat := length (Year d).

Definition iloc (d : DataFrame F) (k : nat) : option Row :=
  y ← Year d !! k;
  tc ← Total_Contributions d !! k;
  ai ← Accrued_Interest d !! k;
  tv ← Total_Value d !! k;
  Some (mkRow y tc ai tv).

(** Every column has the length of the index. *)
Definition well_formed (d : DataFrame F) : Prop :=
  length (Total_Contributions d) = nrows d
  ∧ length (Accrued_Interest d) = nrows d
  ∧ length (Total_Value d) = nrows d.
End Rows.

Arguments Row F : clear implicits.

(** ** The recurrence of the specification

    [value 0 = initial], [value i = value (i-1) * (1 + rate) + contribution];
    and the running sum of [i] contributions. *)

Section Recurrence.
Context {F : Type} `{Arith F}.
Local Open Scope arith_scope.

Fixpoint value (rate initial contribution : F) (i : nat) : F :=
  match i with
  | O => initial
  | S j => value rate initial contribution j ⊗ (of_int 1 ⊕ rate) ⊕ contribution
  end.

(** The running sum starts from the first contribution itself, as
    [np.cumsum] does. *)
Fixpoint contributed (contribution : F) (i : nat) : F :=
  match i with
  | O => of_int 0
  | 1%nat => contribution
  | S j => contributed contribution j ⊕ contribution
  end.

(** The values of the recurrence for the [n] years after year [from]. *)
Definition values (rate initial contribution : F) (from n : nat) : list F :=
  value rate initial contribution <$> seq from n.

(** The series of the specification for a horizon of [n] years: years
    [1..n], year 0 left out. *)
Definition projection (rate initial contribution : F) (n : nat)
  : DataFrame F :=
  mkDataFrame
    (seqZ 1 (Z.of_nat n))
    (Some <$> (contributed contribution <$> seq 1 n))
    (Some <$> zip_with sub (values rate initial contribution 1 n)
                           (contributed contribution <$> seq 1 n))
    (Some <$> values rate initial contribution 1 n).
End Recurrence.

(** ** The store of frames

    A variable of the script holds a reference to a frame; [copy] and
    [pd.concat] create new frames, an augmented assignment to a column
    changes the frame the reference points to. *)

Abbreviation loc := nat (only parsing).
Abbreviation heap F := (gmap loc (DataFrame F)) (only parsing).

Section Composer.
Context {F : Type} `{Arith F}.
Local Open Scope arith_scope.

Definition M (A : Type) : Type := heap F → result (A * heap F).

#[export] Instance M_ret : MRet M := λ A a h, Ok (a, h).
#[export] Instance M_bind : MBind M := λ A B f m h,
  match m h with
  | Ok (a, h') => f a h'
  | Raise e => Raise e
  end.

Definition lift {A} (r : result A) : M A := λ h,
  match r with
  | Ok a => Ok (a, h)
  | Raise e => Raise e
  end.

(** A new object holding [d]. *)
Definition alloc (d : DataFrame F) : M loc := λ h,
  let l := fresh (dom h) in Ok (l, <[l := d]> h).

(** The frame behind a reference.  A reference of the script always points
    to a frame; the store reports one that does not as [NameError]. *)
Definition load (l : loc) : M (DataFrame F) := λ h,
  match h !! l with
  | Some d => Ok (d, h)
  | None => Raise NameError
  end.

Definition store (l : loc) (d : DataFrame F) : M unit := λ h,
  Ok ((), <[l := d]> h).

(** *** Columns and Series *)

Inductive column := Col_Total_Contributions | Col_Accrued_Interest | Col_Total_Value.

Definition get_column (c : column) (d : DataFrame F) : list (cell F) :=
  match c with
  | Col_Total_Contributions => Total_Contributions d
  | Col_Accrued_Interest => Accrued_Interest d
  | Col_Total_Value => Total_Value d
  end.

Definition set_column (c : column) (s : list (cell F)) (d : DataFrame F)
  : DataFrame F :=
  match c with
  | Col_Total_Contributions =>
      mkDataFrame (Year d) s (Accrued_Interest d) (Total_Value d)
  | Col_Accrued_Interest =>
      mkDataFrame (Year d) (Total_Contributions d) s (Total_Value d)
  | Col_Total_Value =>
      mkDataFrame (Year d) (Total_Contributions d) (Accrued_Interest d) s
  end.

(** Arithmetic on cells: a missing operand gives a missing result. *)
Definition cell_op (op : F → F → F) (x y : cell F) : cell F :=
  match x, y with
  | Some a, Some b => Some (op a b)
  | _, _ => None
  end.

(** [a + b] on two Series: the indices are aligned on their union, a label
    that only one side has gives a missing value. *)
Fixpoint series_add (a b : list (cell F)) : list (cell F) :=
  match a, b with
  | x :: a', y :: b' => cell_op add x y :: series_add a' b'
  | [], _ => (λ _, None) <$> b
  | _, [] => (λ _, None) <$> a
  end.

(** [s.reindex(range(n))]: labels beyond the end of [s] are missing. *)
Definition reindex (n : nat) (s : list (cell F)) : list (cell F) :=
  take n s ++ replicate (n - length s) None.

(** [df[c]] *)
Definition df_getitem (l : loc) (c : column) : M (list (cell F)) :=
  d ← load l; mret (get_column c d).

(** [df[c] += s]: the sum is reindexed like [df[c]] and assigned to the
    column, aligned to the index of [df]. *)
Definition df_iadd (l : loc) (c : column) (s : list (cell F)) : M unit :=
  d ← load l;
  let self := get_column c d in
  let updated := reindex (length self) (series_add self s) in
  store l (set_column c (reindex (nrows d) updated) d).

(** [df[c].iloc[i]] *)
Definition df_iloc (l : loc) (c : column) (i : Z) : M (cell F) :=
  s ← df_getitem l c; lift (getitem s i).

(** [df.copy()] *)
Definition df_copy (l : loc) : M loc :=
  d ← load l; alloc d.

(** [pd.concat([a, b], ignore_index=True)] *)
Definition pd_concat (la lb : loc) : M loc :=
  a ← load la;
  b ← load lb;
  alloc (mkDataFrame (Year a ++ Year b)
                     (Total_Contributions a ++ Total_Contributions b)
                     (Accrued_Interest a ++ Accrued_Interest b)
                     (Total_Value a ++ Total_Value b)).

(** *** The script *)

(** Lines 146-149: merge the two dataframes by summing the values. *)
Definition merge_frames (data_result_3a data_result_tax_benefit : loc) : M loc :=
  total_3a_result ← df_copy data_result_3a;
  rhs ← df_getitem data_result_tax_benefit Col_Total_Value;
  _ ← df_iadd total_3a_result Col_Total_Value rhs;
  rhs ← df_getitem data_result_tax_benefit Col_Total_Contributions;
  _ ← df_iadd total_3a_result Col_Total_Contributions rhs;
  rhs ← df_getitem data_result_tax_benefit Col_Accrued_Interest;
  _ ← df_iadd total_3a_result Col_Accrued_Interest rhs;
  mret total_3a_result.

(** Lines 151-167: taxes at the end. *)
Definition taxes_at_the_end (total_3a_result : loc) (tax_rate : F) : M loc :=
  tv ← df_iloc total_3a_result Col_Total_Value (-1);
  tc ← df_iloc total_3a_result Col_Total_Contributions (-1);
  let gain := cell_op sub tv tc in
  let tax := cell_op mul gain (Some tax_rate) in
  tv ← df_iloc total_3a_result Col_Total_Value (-1);
  last_row ← alloc (mkDataFrame [41] [None] [None] [cell_op sub tv tax]);
  pd_concat total_3a_result last_row.

Definition composer (data_result_3a data_result_tax_benefit : loc)
    (tax_rate : F) : M loc :=
  total_3a_result ← merge_frames data_result_3a data_result_tax_benefit;
  taxes_at_the_end total_3a_result tax_rate.

(** What the merge leaves in a column of the copy of [a]: the sum with the
    column of [b], reindexed like the column and then like the frame. *)
Definition merged_column (n : nat) (a b : list (cell F)) : list (cell F) :=
  reindex n (reindex (length a) (series_add a b)).

Definition merged (a b : DataFrame F) : DataFrame F :=
  mkDataFrame
    (Year a)
    (merged_column (nrows a) (Total_Contributions a) (Total_Contributions b))
    (merged_column (nrows a) (Accrued_Interest a) (Accrued_Interest b))
    (merged_column (nrows a) (Total_Value a) (Total_Value b)).

(** The terminal row for a merged frame [d] and the frame with it
    appended. *)
Definition terminal_row (d : DataFrame F) (tax_rate : F) : Row F :=
  let tv := default None (last (Total_Value d)) in
  let tc := default None (last (Total_Contributions d)) in
  mkRow 41 None None
        (cell_op sub tv (cell_op mul (cell_op sub tv tc) (Some tax_rate))).

Definition append_row (d : DataFrame F) (r : Row F) : DataFrame F :=
  mkDataFrame (Year d ++ [year r])
              (Total_Contributions d ++ [totalContributions r])
              (Accrued_Interest d ++ [accruedInterest r])
              (Total_Value d ++ [totalValue r]).

(** The composite of the specification: the merge with its terminal row. *)
Definition composite (a b : DataFrame F) (tax_rate : F) : DataFrame F :=
  append_row (merged a b) (terminal_row (merged a b) tax_rate).

(** A row is balanced when its populated fields satisfy
    [totalValue = totalContributions + accruedInterest]. *)
Definition balanced_row (r : Row F) : Prop :=
  ∀ tc ai tv,
    totalContributions r = Some tc → accruedInterest r = Some ai →
    totalValue r = Some tv → tv = tc ⊕ ai.

Definition balanced (d : DataFrame F) : Prop :=
  ∀ k r, iloc d k = Some r → balanced_row r.

(** Every field of the row holds a number. *)
Definition populated (r : Row F) : Prop :=
  is_Some (totalContributions r) ∧ is_Some (accruedInterest r)
  ∧ is_Some (totalValue r).

(** The frames the script builds, lines 107-167, from the four rates as
    fractions (the widgets and the division by 100 are left to the user
    interface): [data_result], [data_result_3a],
    [data_result_tax_benefit] and the final [total_3a_result]. *)
Definition main (interest_rate fees_stock fees_3a tax_rate : F)
  : M (loc * loc * loc * loc) :=
  let rate_stocks := interest_rate ⊖ fees_stock in
  d ← lift (calculate_compounding rate_stocks (of_int 0) (of_int 7056) 40);
  data_result ← alloc d;
  let rate_3a := interest_rate ⊖ fees_3a in
  d ← lift (calculate_compounding rate_3a (of_int 0) (of_int 7056) 40);
  data_result_3a ← alloc d;
  d ← lift (calculate_compounding rate_stocks (of_int 0)
                                  (of_int 7056 ⊗ tax_rate) 40);
  data_result_tax_benefit ← alloc d;
  total_3a_result ← composer data_result_3a data_result_tax_benefit tax_rate;
  mret (data_result, data_result_3a, data_result_tax_benefit, total_3a_result).
End Composer.

(** ** Carriers *)

(** IEEE binary64, the arithmetic of numpy's float64. *)
Module Float64.
Definition of_Z (z : Z) : float :=
  SF2Prim (binary_normalize prec emax z 0 false).

#[global] Instance arith : Arith float := {|
  of_int := of_Z;
  add := PrimFloat.add;
  sub := PrimFloat.sub;
  mul := PrimFloat.mul;
  leb := PrimFloat.leb;
|}.
End Float64.

(** Canonical rationals, an exact ordered field. *)
Module Exact.
Definition of_Z (z : Z) : Qc := Q2Qc (inject_Z z).

#[global] Instance arith : Arith Qc := {|
  of_int := of_Z;
  add := Qcplus;
  sub := Qcminus;
  mul := Qcmult;
  leb := λ x y, Qle_bool x y;
|}.
End Exact.

(** ** Concrete inputs *)

Module Examples.
(** binary64: two years at 50%, 100 a year; two years and one year at 0%,
    10 a year. *)
Definition ex_3a : DataFrame float :=
  mkDataFrame [1; 2] [Some 100; Some 200]%float [Some 0; Some 50]%float
              [Some 100; Some 250]%float.
Definition ex_benefit : DataFrame float :=
  mkDataFrame [1; 2] [Some 10; Some 20]%float [Some 0; Some 0]%float
              [Some 10; Some 20]%float.
Definition ex_short : DataFrame float :=
  mkDataFrame [1] [Some 10]%float [Some 0]%float [Some 10]%float.

Definition ex_store : heap float := {[ 0%nat := ex_3a; 1%nat := ex_benefit ]}.
Definition ex_store_short : heap float :=
  {[ 0%nat := ex_3a; 1%nat := ex_short ]}.

(** Rationals: a rate of 1/10; two years at that rate, 100 a year, and two
    years at 0, 20 a year. *)
Definition tenth : Qc := Q2Qc (1 # 10).
Definition ex_store_exact : heap Qc :=
  {[ 0%nat := projection tenth (Exact.of_Z 0) (Exact.of_Z 100) 2;
     1%nat := projection (Exact.of_Z 0) (Exact.of_Z 0) (Exact.of_Z 20) 2 ]}.
End Examples.

(** ** Powers of the growth factor *)

Section Power.
Context {F : Type} `{Arith F}.
Local Open Scope arith_scope.

(** [x ** n] for a natural exponent. *)
Fixpoint power (x : F) (n : nat) : F :=
  match n with
  | O => of_int 1
  | S m => power x m ⊗ x
  end.
End Power.

Module MoreExamples.
Import Examples.
(** Rationals: two series at the rate 1/10 over three years. *)
Definition ex_store_same_rate : heap Qc :=
  {[ 0%nat := projection tenth (Exact.of_Z 50) (Exact.of_Z 100) 3;
     1%nat := projection tenth (Exact.of_Z 0) (Exact.of_Z 20) 3 ]}.

(** binary64: an empty first series. *)
Definition ex_store_empty : heap float :=
  {[ 0%nat := mkDataFrame [] [] [] []; 1%nat := ex_benefit ]}.
End MoreExamples.

(** ** Charts

    A plotly figure is its list of traces and its layout; [add_trace]
    appends a trace, [update_layout] sets the keys it is given and keeps the
    others.  The figures of the script are not shared between variables, so
    they are passed as values. *)

Record Legend := mkLegend {
  yanchor : string;
  legend_y : Q;
  xanchor : string;
  legend_x : Q;
}.

Record Layout := mkLayout {
  title : option string;
  barmode : option string;
  xaxis_title : option string;
  yaxis_title : option string;
  showlegend : option bool;
  legend : option Legend;
}.

Section Charts.
Context {F : Type} `{Arith F}.

Inductive Trace :=
  | Bar (x : list Z) (y : list (cell F)) (name marker_color : string)
  | Scatter (x : list Z) (y : list (cell F)) (name mode : string)
            (marker_color : string) (marker_size : Z)
            (line_color : string) (line_width : Z).

Record Figure := mkFigure {
  data : list Trace;
  layout : Layout;
}.

(** [go.Figure()] *)
Definition go_Figure : Figure :=
  mkFigure [] (mkLayout None None None None None None).

(** [fig.add_trace(t)] *)
Definition add_trace (fig : Figure) (t : Trace) : Figure :=
  mkFigure (data fig ++ [t]) (layout fig).

(** [fig.update_layout(...)]: [update] holds the keys that are given. *)
Definition update_layout (fig : Figure) (update : Layout) : Figure :=
  let keep {A} (new old : option A) : option A :=
    match new with Some _ => new | None => old end in
  let old := layout fig in
  mkFigure (data fig)
    (mkLayout (keep (title update) (title old))
              (keep (barmode update) (barmode old))
              (keep (xaxis_title update) (xaxis_title old))
              (keep (yaxis_title update) (yaxis_title old))
              (keep (showlegend update) (showlegend old))
              (keep (legend update) (legend old))).

(** [df["Year"]] *)
Definition df_year (l : loc) : M (F:=F) (list Z) :=
  d ← load l; mret (Year d).

Definition make_chart_1 (data_frame : loc) : M (F:=F) Figure :=
  let fig := go_Figure in
  (* Adding bars for A *)
  x ← df_year data_frame;
  y ← df_getitem data_frame Col_Total_Contributions;
  let fig :=
    add_trace fig (Bar x y "Total Contributions" "rgb(55, 83, 109)") in
  (* Adding bars for B *)
  x ← df_year data_frame;
  y ← df_getitem data_frame Col_Accrued_Interest;
  let fig :=
    add_trace fig (Bar x y "Accrued Interest" "rgb(26, 118, 255)") in
  (* Adding line for C *)
  x ← df_year data_frame;
  y ← df_getitem data_frame Col_Total_Value;
  let fig :=
    add_trace fig (Scatter x y "Total Value" "lines+markers"
                           "rgb(0, 204, 150)" 10 "rgb(0, 204, 150)" 2) in
  (* Update layout *)
  let fig :=
    update_layout fig
      (mkLayout None (Some "stack") (Some "Year") (Some "Values") (Some true)
                (Some (mkLegend "top" (99 # 100) "left" (1 # 100)))) in
  mret fig.

(** Lines 107-170 of the script: the frames, then the chart of the
    composite with its title. *)
Definition main_total_chart (interest_rate fees_stock fees_3a tax_rate : F)
  : M (F:=F) Figure :=
  '(_, _, _, total_3a_result) ←
    main interest_rate fees_stock fees_3a tax_rate;
  fig_3a_total ← make_chart_1 total_3a_result;
  mret (update_layout fig_3a_total
          (mkLayout (Some "Total Investment (3a + Tax Benefit)")
                    None None None None None)).

(** The points of a trace. *)
Definition trace_x (t : Trace) : list Z :=
  match t with Bar x _ _ _ => x | Scatter x _ _ _ _ _ _ _ => x end.
Definition trace_y (t : Trace) : list (cell F) :=
  match t with Bar _ y _ _ => y | Scatter _ y _ _ _ _ _ _ => y end.
End Charts.

Arguments Trace F : clear implicits.
Arguments Figure F : clear implicits.

(** ** The numbers of the conclusion

    The conclusion prints [f'{n:,}'] for an int [n] (the total value cut to
    an int by [int]; that conversion of the float is not modelled). *)

(** Digits from the last to the first, a separator after every third digit
    that has a digit after it. *)
Fixpoint group3_reversed (ds : list ascii) : list ascii :=
  match ds with
  | a :: b :: c :: ((_ :: _) as rest) =>
      a :: b :: c :: ","%char :: group3_reversed rest
  | _ => ds
  end.

Definition group3 (digits : string) : string :=
  String.string_of_list_ascii
    (reverse (group3_reversed (reverse (String.list_ascii_of_string digits)))).

(** [f'{n:,}'] *)
Definition format_thousands (n : Z) : string :=
  match Z.to_int n with
  | Decimal.Pos d => group3 (NilEmpty.string_of_uint d)
  | Decimal.Neg d => String "-" (group3 (NilEmpty.string_of_uint d))
  end.

(** [str(n)], [int(s)] and [s.replace(",", "")] *)
Definition str (n : Z) : string := NilEmpty.string_of_int (Z.to_int n).
Definition int_of_str (s : string) : option Z :=
  Z.of_int <$> NilZero.int_of_string s.
Definition remove_commas (s : string) : string :=
  String.string_of_list_ascii
    (filter (λ c, c ≠ ","%char) (String.list_ascii_of_string s)).

(** * Properties *)

(** ** The error monad *)

Lemma bind_Ok {A B} (f : A → result B) (a : A) : (Ok a ≫= f) = f a.
Proof. reflexivity. Qed.

Lemma bind_Raise {A B} (f : A → result B) (e : exn) : (Raise e ≫= f) = Raise e.
Proof. reflexivity. Qed.

(** ** Arrays *)

Section ArrayFacts.
Context {A : Type}.
Implicit Types (a : list A) (k : nat).

Lemma py_index_nat len k :
  (k < len)%nat → py_index len (Z.of_nat k) = Ok k.
Proof.
  intros Hk. unfold py_index.
  rewrite bool_decide_eq_true_2 by lia. by rewrite Nat2Z.id.
Qed.

Lemma py_index_last len :
  (0 < len)%nat → py_index len (-1) = Ok (Nat.pred len).
Proof.
  intros Hlen. unfold py_index.
  rewrite bool_decide_eq_false_2 by lia.
  rewrite bool_decide_eq_true_2 by lia. f_equal. lia.
Qed.

Lemma py_index_empty i : py_index 0 i = Raise IndexError.
Proof.
  unfold py_index. by rewrite !bool_decide_eq_false_2 by (simpl; lia).
Qed.

Lemma getitem_nat a k x : a !! k = Some x → getitem a (Z.of_nat k) = Ok x.
Proof.
  intros Hx. unfold getitem.
  rewrite py_index_nat by (by eapply lookup_lt_Some).
  rewrite bind_Ok. by rewrite Hx.
Qed.

Lemma getitem_last a x : last a = Some x → getitem a (-1) = Ok x.
Proof.
  intros Hx. unfold getitem. rewrite last_lookup in Hx.
  rewrite py_index_last by (apply lookup_lt_Some in Hx; lia).
  rewrite bind_Ok. by rewrite Hx.
Qed.

Lemma setitem_nat a k x :
  (k < length a)%nat → setitem a (Z.of_nat k) x = Ok (<[k := x]> a).
Proof. intros Hk. unfold setitem. by rewrite py_index_nat. Qed.
End ArrayFacts.

(** ** calculate_compounding in closed form *)

Section ProjectionFacts.
Context {F : Type} `{Arith F}.
Local Open Scope arith_scope.
Implicit Types (rate initial contribution : F).

Lemma values_snoc rate initial contribution n :
  values rate initial contribution 0 (S n)
  = values rate initial contribution 0 n ++ [value rate initial contribution n].
Proof. unfold values. by rewrite seq_S, fmap_app. Qed.

Lemma values_tail rate initial contribution n :
  drop 1 (values rate initial contribution 0 (S n))
  = values rate initial contribution 1 n.
Proof. reflexivity. Qed.

Lemma compounding_step_nat rate contribution (fv : list F) (k : nat) (v : F) :
  fv !! k = Some v → (S k < length fv)%nat →
  compounding_step rate contribution fv (Z.of_nat (S k))
  = Ok (<[S k := v ⊗ (of_int 1 ⊕ rate) ⊕ contribution]> fv).
Proof.
  intros Hv Hlen. unfold compounding_step.
  replace (Z.of_nat (S k) - 1) with (Z.of_nat k) by lia.
  rewrite (getitem_nat _ _ _ Hv), bind_Ok.
  by apply setitem_nat.
Qed.

(** The loop fills the array with the recurrence: after the iterations for
    years [1..k] the first [k+1] slots hold [value 0 .. value k], and the
    remaining iterations complete it. *)
Lemma loop_fills rate initial contribution (m k : nat) (z : F) :
  for_in (seqZ (Z.of_nat (S k)) (Z.of_nat m))
         (compounding_step rate contribution)
         (values rate initial contribution 0 (S k) ++ replicate m z)
  = Ok (values rate initial contribution 0 (S k + m)).
Proof.
  revert k. induction m as [|m IH]; intros k.
  - simpl. by rewrite app_nil_r, Nat.add_0_r.
  - rewrite seqZ_cons by lia. cbn [for_in].
    rewrite (compounding_step_nat _ _ _ k (value rate initial contribution k));
      last first.
    { rewrite length_app, length_replicate. unfold values.
      rewrite length_fmap, length_seq. lia. }
    { rewrite lookup_app_l by (unfold values; rewrite length_fmap, length_seq; lia).
      unfold values. rewrite list_lookup_fmap, lookup_seq_lt by lia. done. }
    rewrite bind_Ok.
    assert (length (values rate initial contribution 0 (S k)) = S k) as Hlen
      by (unfold values; by rewrite length_fmap, length_seq).
    rewrite insert_app_r_alt by lia. rewrite Hlen, Nat.sub_diag.
    cbn [replicate insert list_insert].
    rewrite cons_middle, app_assoc.
    change (value rate initial contribution k ⊗ (of_int 1 ⊕ rate) ⊕ contribution)
      with (value rate initial contribution (S k)).
    rewrite <-values_snoc.
    replace (Z.succ (Z.of_nat (S k))) with (Z.of_nat (S (S k))) by lia.
    replace (Z.pred (Z.of_nat (S m))) with (Z.of_nat m) by lia.
    rewrite IH. f_equal. f_equal. lia.
Qed.

Lemma cumsum_from_replicate contribution (m j : nat) :
  cumsum_from (contributed contribution (S j)) (replicate m contribution)
  = contributed contribution <$> seq (S (S j)) m.
Proof.
  revert j. induction m as [|m IH]; intros j; [done|].
  cbn [replicate cumsum_from seq fmap list_fmap]. f_equal.
  apply (IH (S j)).
Qed.

Lemma np_cumsum_replicate contribution (n : nat) :
  np_cumsum (replicate n contribution) = contributed contribution <$> seq 1 n.
Proof.
  destruct n as [|n]; [done|].
  cbn [replicate np_cumsum seq fmap list_fmap]. f_equal.
  apply (cumsum_from_replicate contribution n 0).
Qed.

Lemma calculate_compounding_nat rate initial contribution (n : nat) :
  calculate_compounding rate initial contribution (Z.of_nat n)
  = Ok (projection rate initial contribution n).
Proof.
  unfold calculate_compounding, np_zeros.
  rewrite bool_decide_eq_false_2 by lia. rewrite bind_Ok.
  replace (Z.to_nat (Z.of_nat n + 1)) with (S n) by lia.
  rewrite (setitem_nat _ 0) by (rewrite length_replicate; lia).
  rewrite bind_Ok. cbn [replicate insert list_insert].
  unfold range. replace (Z.of_nat n + 1 - 1) with (Z.of_nat n) by lia.
  pose proof (loop_fills rate initial contribution n 0 (of_int 0)) as Hloop.
  cbn [values seq fmap list_fmap value app] in Hloop.
  change 1 with (Z.of_nat 1). rewrite Hloop. rewrite bind_Ok.
  cbn [Nat.add]. rewrite values_tail.
  unfold np_repeat. rewrite bool_decide_eq_false_2 by lia. rewrite bind_Ok.
  rewrite Nat2Z.id, np_cumsum_replicate.
  unfold np_sub. rewrite bool_decide_eq_true_2; last first.
  { unfold values. by rewrite !length_fmap, !length_seq. }
  rewrite bind_Ok. unfold pd_DataFrame, np_arange, range.
  replace (Z.of_nat 1) with 1 by done.
  replace (Z.of_nat n + 1 - 1) with (Z.of_nat n) by lia.
  rewrite bool_decide_eq_true_2; [done|].
  unfold values.
  rewrite length_zip_with, !length_fmap, !length_seq, length_seqZ. lia.
Qed.
End ProjectionFacts.

(** ** The series in rows *)

Section SeriesFacts.
Context {F : Type} `{Arith F}.
Local Open Scope arith_scope.
Implicit Types (rate initial contribution : F).

Lemma nrows_projection rate initial contribution n :
  nrows (projection rate initial contribution n) = n.
Proof. unfold nrows, projection. cbn. by rewrite length_seqZ, Nat2Z.id. Qed.

Lemma well_formed_projection rate initial contribution n :
  well_formed (projection rate initial contribution n).
Proof.
  unfold well_formed. rewrite nrows_projection.
  unfold projection, values.
  cbn [Total_Contributions Accrued_Interest Total_Value].
  rewrite !length_fmap, length_zip_with, !length_fmap, !length_seq.
  lia.
Qed.

Lemma iloc_projection rate initial contribution n k :
  (k < n)%nat →
  iloc (projection rate initial contribution n) k
  = Some (mkRow (Z.of_nat (S k))
                (Some (contributed contribution (S k)))
                (Some (value rate initial contribution (S k)
                       ⊖ contributed contribution (S k)))
                (Some (value rate initial contribution (S k)))).
Proof.
  intros Hk. unfold iloc, projection, values. cbn.
  rewrite lookup_seqZ_lt by lia. cbn.
  rewrite !list_lookup_fmap, lookup_zip_with, !list_lookup_fmap.
  rewrite !lookup_seq_lt by lia. cbn.
  do 2 f_equal. lia.
Qed.

Lemma iloc_projection_None rate initial contribution n k :
  (n ≤ k)%nat → iloc (projection rate initial contribution n) k = None.
Proof.
  intros Hk. unfold iloc, projection. cbn.
  by rewrite lookup_seqZ_ge by lia.
Qed.
End SeriesFacts.

(** ** The rationals are an ordered ring *)

Module ExactLaws.
Import Exact.

Lemma of_Z_add (a b : Z) : of_Z (a + b) = (of_Z a + of_Z b)%Qc.
Proof.
  unfold of_Z. apply Qc_is_canon. simpl.
  rewrite !Qred_correct, inject_Z_plus. reflexivity.
Qed.

Lemma leb_le (x y : Qc) : Qle_bool x y = true ↔ (x <= y)%Qc.
Proof. apply Qle_bool_iff. Qed.

Lemma ring_laws :
  ring_theory (of_Z 0) (of_Z 1) Qcplus Qcmult Qcminus
              (λ x, Qcminus (of_Z 0) x) (@eq Qc).
Proof.
  change (of_Z 0) with 0%Qc. change (of_Z 1) with 1%Qc.
  pose proof Qcrt as R. constructor; try apply R.
  - intros x y. unfold Qcminus. by rewrite Qcplus_0_l.
  - intros x. unfold Qcminus. rewrite Qcplus_0_l. apply Qcplus_opp_r.
Qed.

Lemma leb_add (x y z : Qc) :
  Qle_bool x y = true → Qle_bool (x + z)%Qc (y + z)%Qc = true.
Proof.
  rewrite !leb_le. intros Hxy.
  apply Qcplus_le_compat; [done | apply Qcle_refl].
Qed.

Lemma leb_mul (x y : Qc) :
  Qle_bool (of_Z 0) x = true → Qle_bool (of_Z 0) y = true →
  Qle_bool (of_Z 0) (x * y)%Qc = true.
Proof.
  rewrite !leb_le. change (of_Z 0) with 0%Qc. intros Hx Hy.
  rewrite <-(Qcmult_0_l y). by apply Qcmult_le_compat_r.
Qed.

#[global] Instance laws : ArithLaws Qc.
Proof.
  split.
  - exact ring_laws.
  - intros n _. apply of_Z_add.
  - intros x. apply leb_le, Qcle_refl.
  - intros x y z Hxy Hyz. apply leb_le.
    apply (Qcle_trans x y z); apply leb_le; [exact Hxy | exact Hyz].
  - exact leb_add.
  - exact leb_mul.
Qed.
End ExactLaws.

(** ** Which horizons fail *)

Section Horizon.
Context {F : Type} `{Arith F}.
Implicit Types (rate initial contribution : F).

Lemma calculate_compounding_nonneg rate initial contribution (n_years : Z) :
  0 ≤ n_years →
  calculate_compounding rate initial contribution n_years
  = Ok (projection rate initial contribution (Z.to_nat n_years)).
Proof.
  intros Hn. rewrite <-(Z2Nat.id n_years) at 1 by done.
  apply calculate_compounding_nat.
Qed.

Lemma calculate_compounding_minus_one rate initial contribution :
  calculate_compounding rate initial contribution (-1) = Raise IndexError.
Proof. reflexivity. Qed.

Lemma calculate_compounding_below rate initial contribution (n_years : Z) :
  n_years < -1 →
  calculate_compounding rate initial contribution n_years = Raise ValueError.
Proof.
  intros Hn. unfold calculate_compounding, np_zeros.
  by rewrite bool_decide_eq_true_2 by lia.
Qed.

Lemma calculate_compounding_Ok rate initial contribution n_years d :
  calculate_compounding rate initial contribution n_years = Ok d →
  0 ≤ n_years ∧ d = projection rate initial contribution (Z.to_nat n_years).
Proof.
  intros Hd. destruct (decide (0 ≤ n_years)) as [Hn|Hn].
  - rewrite calculate_compounding_nonneg in Hd by done. by simplify_eq.
  - destruct (decide (n_years = -1)) as [->|Hn'].
    + by rewrite calculate_compounding_minus_one in Hd.
    + by rewrite calculate_compounding_below in Hd by lia.
Qed.
End Horizon.

(** ** Consequences of the ring and order laws *)

Section Laws.
Context {F : Type} `{ArithLaws F}.
Local Open Scope arith_scope.
Implicit Types (rate initial contribution x y z : F).

Add Ring arith_ring_tac : arith_ring.

Lemma contributed_mul contribution (i : nat) :
  contributed contribution i = contribution ⊗ of_int (Z.of_nat i).
Proof.
  induction i as [|[|i] IH].
  - change (of_int 0 = contribution ⊗ of_int 0). ring.
  - change (contribution = contribution ⊗ of_int 1). ring.
  - change (contributed contribution (S (S i)))
      with (contributed contribution (S i) ⊕ contribution).
    rewrite IH. rewrite (Nat2Z.inj_succ (S i)), <-Z.add_1_r.
    rewrite of_int_succ by lia. ring.
Qed.

Lemma leb_sub_nonneg x y : of_int 0 ≼ y ⊖ x → x ≼ y.
Proof.
  intros Hxy. apply (leb_add_mono _ _ x) in Hxy.
  replace (of_int 0 ⊕ x) with x in Hxy by ring.
  by replace (y ⊖ x ⊕ x) with y in Hxy by ring.
Qed.

Lemma leb_nonneg_sub x y : x ≼ y → of_int 0 ≼ y ⊖ x.
Proof.
  intros Hxy. apply (leb_add_mono _ _ (of_int 0 ⊖ x)) in Hxy.
  replace (x ⊕ (of_int 0 ⊖ x)) with (of_int 0 : F) in Hxy by ring.
  by replace (y ⊕ (of_int 0 ⊖ x)) with (y ⊖ x) in Hxy by ring.
Qed.

Lemma leb_add_nonneg x y : of_int 0 ≼ x → of_int 0 ≼ y → of_int 0 ≼ x ⊕ y.
Proof.
  intros Hx Hy. apply (leb_trans _ y); [done|].
  apply (leb_add_mono _ _ y) in Hx.
  by replace (of_int 0 ⊕ y) with y in Hx by ring.
Qed.

(** What one year adds to the value. *)
Lemma value_increment rate initial contribution i :
  value rate initial contribution (S i) ⊖ value rate initial contribution i
  = value rate initial contribution i ⊗ rate ⊕ contribution.
Proof. cbn [value]. ring. Qed.

Section Nonnegative.
Context (rate initial contribution : F).
Context (Hrate : of_int 0 ≼ rate) (Hinitial : of_int 0 ≼ initial)
        (Hcontribution : of_int 0 ≼ contribution).

Lemma value_nonneg i : of_int 0 ≼ value rate initial contribution i.
Proof.
  induction i as [|i IH]; [done|].
  replace (value rate initial contribution (S i))
    with (value rate initial contribution i
          ⊕ (value rate initial contribution i ⊗ rate ⊕ contribution))
    by (cbn [value]; ring).
  auto using leb_add_nonneg, leb_mul_nonneg.
Qed.

Lemma value_step i :
  value rate initial contribution i ≼ value rate initial contribution (S i).
Proof.
  apply leb_sub_nonneg. rewrite value_increment.
  auto using leb_add_nonneg, leb_mul_nonneg, value_nonneg.
Qed.

Lemma value_mono i j :
  (i ≤ j)%nat →
  value rate initial contribution i ≼ value rate initial contribution j.
Proof.
  induction 1 as [|j _ IH]; [apply leb_refl|].
  eapply leb_trans; [exact IH | apply value_step].
Qed.

(** The growth-attributable part of the value. *)
Lemma interest_nonneg i :
  of_int 0 ≼ value rate initial contribution i ⊖ contributed contribution i.
Proof.
  induction i as [|i IH].
  - cbn [value contributed].
    by replace (initial ⊖ of_int 0) with initial by ring.
  - replace (value rate initial contribution (S i)
             ⊖ contributed contribution (S i))
      with ((value rate initial contribution i ⊖ contributed contribution i)
            ⊕ value rate initial contribution i ⊗ rate).
    + auto using leb_add_nonneg, leb_mul_nonneg, value_nonneg.
    + rewrite !contributed_mul, (Nat2Z.inj_succ i), <-Z.add_1_r.
      rewrite of_int_succ by lia. cbn [value]. ring.
Qed.
End Nonnegative.
End Laws.

(** ** The store *)

Section StoreFacts.
Context {F : Type} `{Arith F}.
Implicit Types (h : heap F) (l : loc) (d : DataFrame F).

Lemma M_bind_run {A B} (m : M (F:=F) A) (f : A → M B) h a h' :
  m h = Ok (a, h') → (m ≫= f) h = f a h'.
Proof. intros Hm. unfold mbind, M_bind. by rewrite Hm. Qed.

Lemma load_Some h l d : h !! l = Some d → load l h = Ok (d, h).
Proof. intros Hl. unfold load. by rewrite Hl. Qed.

Lemma fresh_lookup h : h !! fresh (dom h) = None.
Proof. apply not_elem_of_dom, is_fresh. Qed.

Lemma fresh_ne h l d : h !! l = Some d → fresh (dom h) ≠ l.
Proof. intros Hl Heq. by rewrite <-Heq, fresh_lookup in Hl. Qed.

Lemma lookup_alloc_ne h l d d' :
  h !! l = Some d → <[fresh (dom h) := d']> h !! l = Some d.
Proof. intros Hl. rewrite lookup_insert_ne; [done | by eapply fresh_ne]. Qed.

Lemma df_getitem_Some h l d c :
  h !! l = Some d → df_getitem l c h = Ok (get_column c d, h).
Proof.
  intros Hl. unfold df_getitem.
  by rewrite (M_bind_run _ _ _ _ _ (load_Some _ _ _ Hl)).
Qed.

Lemma df_iadd_Some h l d c s :
  h !! l = Some d →
  df_iadd l c s h
  = Ok ((), <[l := set_column c
                     (merged_column (nrows d) (get_column c d) s) d]> h).
Proof.
  intros Hl. unfold df_iadd.
  by rewrite (M_bind_run _ _ _ _ _ (load_Some _ _ _ Hl)).
Qed.

Lemma df_copy_Some h l d :
  h !! l = Some d →
  df_copy l h = Ok (fresh (dom h), <[fresh (dom h) := d]> h).
Proof.
  intros Hl. unfold df_copy.
  by rewrite (M_bind_run _ _ _ _ _ (load_Some _ _ _ Hl)).
Qed.

Lemma df_iloc_last h l d c x :
  h !! l = Some d → last (get_column c d) = Some x →
  df_iloc l c (-1) h = Ok (x, h).
Proof.
  intros Hl Hx. unfold df_iloc.
  rewrite (M_bind_run _ _ _ _ _ (df_getitem_Some _ _ _ c Hl)).
  unfold lift. by rewrite (getitem_last _ _ Hx).
Qed.

Lemma df_iloc_empty h l d c i :
  h !! l = Some d → get_column c d = [] →
  df_iloc l c i h = Raise IndexError.
Proof.
  intros Hl Hx. unfold df_iloc.
  rewrite (M_bind_run _ _ _ _ _ (df_getitem_Some _ _ _ c Hl)).
  unfold lift, getitem. by rewrite Hx, py_index_empty.
Qed.

(** The merge step: one new frame, holding [merged a b]. *)
Lemma merge_frames_run h la lb a b :
  h !! la = Some a → h !! lb = Some b →
  merge_frames la lb h
  = Ok (fresh (dom h), <[fresh (dom h) := merged a b]> h).
Proof.
  intros Ha Hb. unfold merge_frames.
  set (l := fresh (dom h)).
  assert (l ≠ lb) as Hne by (by eapply fresh_ne).
  rewrite (M_bind_run _ _ _ _ _ (df_copy_Some _ _ _ Ha)). fold l.
  erewrite M_bind_run; last first.
  { apply df_getitem_Some. by rewrite lookup_insert_ne. }
  erewrite M_bind_run; last first.
  { apply df_iadd_Some. apply lookup_insert_eq. }
  rewrite insert_insert_eq.
  erewrite M_bind_run; last first.
  { apply df_getitem_Some. by rewrite lookup_insert_ne. }
  erewrite M_bind_run; last first.
  { apply df_iadd_Some. apply lookup_insert_eq. }
  rewrite insert_insert_eq.
  erewrite M_bind_run; last first.
  { apply df_getitem_Some. by rewrite lookup_insert_ne. }
  erewrite M_bind_run; last first.
  { apply df_iadd_Some. apply lookup_insert_eq. }
  rewrite insert_insert_eq.
  reflexivity.
Qed.

(** The tax step: the terminal row is one new frame, the concatenation
    another. *)
Lemma taxes_at_the_end_run h l d tax_rate :
  h !! l = Some d →
  Total_Value d ≠ [] → Total_Contributions d ≠ [] →
  let l1 := fresh (dom h) in
  let r := terminal_row d tax_rate in
  let h1 := <[l1 := mkDataFrame [year r] [totalContributions r]
                                [accruedInterest r] [totalValue r]]> h in
  taxes_at_the_end l tax_rate h
  = Ok (fresh (dom h1), <[fresh (dom h1) := append_row d r]> h1).
Proof.
  intros Hl Htv Htc l1 r h1. unfold taxes_at_the_end.
  destruct (last (Total_Value d)) as [tv|] eqn:Hlast_tv;
    last by (apply last_None in Hlast_tv).
  destruct (last (Total_Contributions d)) as [tc|] eqn:Hlast_tc;
    last by (apply last_None in Hlast_tc).
  rewrite (M_bind_run _ _ _ _ _
             (df_iloc_last _ _ _ Col_Total_Value _ Hl Hlast_tv)).
  rewrite (M_bind_run _ _ _ _ _
             (df_iloc_last _ _ _ Col_Total_Contributions _ Hl Hlast_tc)).
  rewrite (M_bind_run _ _ _ _ _
             (df_iloc_last _ _ _ Col_Total_Value _ Hl Hlast_tv)).
  unfold alloc at 1.
  erewrite M_bind_run; last reflexivity.
  unfold pd_concat. fold l1.
  assert (l1 ≠ l) as Hne by (by eapply fresh_ne).
  erewrite M_bind_run; last first.
  { apply load_Some. by rewrite lookup_insert_ne. }
  erewrite M_bind_run; last first.
  { apply load_Some. apply lookup_insert_eq. }
  subst r h1. unfold alloc, terminal_row, append_row.
  rewrite Hlast_tv, Hlast_tc. reflexivity.
Qed.
End StoreFacts.

(** ** Aligned sums *)

Section MergeFacts.
Context {F : Type} `{Arith F}.
Implicit Types (a b s : list (cell F)) (k n : nat).

Lemma length_series_add a b :
  length (series_add a b) = (length a `max` length b)%nat.
Proof.
  revert b. induction a as [|x a IH]; intros [|y b]; cbn; try done.
  - by rewrite length_fmap.
  - by rewrite length_fmap.
  - by rewrite IH.
Qed.

Lemma lookup_series_add a b k :
  series_add a b !! k
  = match a !! k, b !! k with
    | Some x, Some y => Some (cell_op add x y)
    | None, None => None
    | _, _ => Some None
    end.
Proof.
  revert b k. induction a as [|x a IH]; intros [|y b] k.
  - done.
  - cbn [series_add]. rewrite list_lookup_fmap, lookup_nil.
    by destruct (_ !! k).
  - cbn [series_add]. rewrite list_lookup_fmap, lookup_nil.
    by destruct (_ !! k).
  - destruct k as [|k]; [done|]. cbn. apply IH.
Qed.

Lemma length_reindex n s : length (reindex n s) = n.
Proof.
  unfold reindex. rewrite length_app, length_take, length_replicate. lia.
Qed.

Lemma lookup_reindex n s k :
  reindex n s !! k
  = if decide (k < n)%nat then Some (default None (s !! k)) else None.
Proof.
  unfold reindex. case_decide as Hk.
  - destruct (decide (k < length s)%nat) as [Hs|Hs].
    + rewrite lookup_app_l by (rewrite length_take; lia).
      rewrite lookup_take_lt by lia.
      destruct (lookup_lt_is_Some_2 s k Hs) as [x ->]. done.
    + rewrite lookup_app_r by (rewrite length_take; lia).
      rewrite lookup_replicate_2 by (rewrite length_take; lia).
      by rewrite lookup_ge_None_2 by lia.
  - apply lookup_ge_None_2.
    rewrite length_app, length_take, length_replicate. lia.
Qed.

Lemma length_merged_column n a b : length (merged_column n a b) = n.
Proof. apply length_reindex. Qed.

(** A cell of a merged column: the sum where both sides have the label,
    missing where only the left side has it. *)
Lemma lookup_merged_column n a b k x :
  (k < n)%nat → a !! k = Some x →
  merged_column n a b !! k
  = Some (cell_op add x (default None (b !! k))).
Proof.
  intros Hk Hx. unfold merged_column.
  rewrite lookup_reindex, decide_True by done.
  rewrite lookup_reindex, decide_True by (by eapply lookup_lt_Some).
  rewrite lookup_series_add, Hx.
  destruct (b !! k) as [y|]; cbn; [done|]. by destruct x.
Qed.

Lemma lookup_merged_column_None n a b k :
  (k < n)%nat → a !! k = None → merged_column n a b !! k = Some None.
Proof.
  intros Hk Hx. unfold merged_column.
  rewrite lookup_reindex, decide_True by done.
  rewrite lookup_reindex. apply lookup_ge_None in Hx.
  by rewrite decide_False by lia.
Qed.

Lemma nrows_merged (da db : DataFrame F) : nrows (merged da db) = nrows da.
Proof. done. Qed.

Lemma well_formed_merged (da db : DataFrame F) : well_formed (merged da db).
Proof.
  unfold well_formed. rewrite nrows_merged. cbn.
  by rewrite !length_merged_column.
Qed.

Lemma iloc_Some_lt (d : DataFrame F) k r :
  iloc d k = Some r → (k < nrows d)%nat.
Proof.
  unfold iloc, nrows. intros Hr.
  destruct (Year d !! k) eqn:Hy; [|done]. by eapply lookup_lt_Some.
Qed.

Lemma iloc_is_Some (d : DataFrame F) k :
  well_formed d → (k < nrows d)%nat → is_Some (iloc d k).
Proof.
  intros (Htc & Hai & Htv) Hk. unfold iloc, nrows in *.
  destruct (lookup_lt_is_Some_2 (Year d) k) as [y ->]; [lia|].
  destruct (lookup_lt_is_Some_2 (Total_Contributions d) k) as [tc ->]; [lia|].
  destruct (lookup_lt_is_Some_2 (Accrued_Interest d) k) as [ai ->]; [lia|].
  destruct (lookup_lt_is_Some_2 (Total_Value d) k) as [tv ->]; [lia|].
  by eexists.
Qed.

Lemma iloc_merged (da db : DataFrame F) k ra :
  iloc da k = Some ra →
  iloc (merged da db) k
  = Some (mkRow (year ra)
            (cell_op add (totalContributions ra)
                     (default None (Total_Contributions db !! k)))
            (cell_op add (accruedInterest ra)
                     (default None (Accrued_Interest db !! k)))
            (cell_op add (totalValue ra)
                     (default None (Total_Value db !! k)))).
Proof.
  intros Hra. pose proof (iloc_Some_lt _ _ _ Hra) as Hk.
  unfold iloc in *. cbn [merged Year Total_Contributions Accrued_Interest
                         Total_Value].
  destruct (Year da !! k) as [y|]; [|done]. cbn in *.
  destruct (Total_Contributions da !! k) as [tc|] eqn:Htc; [|done].
  destruct (Accrued_Interest da !! k) as [ai|] eqn:Hai; [|done].
  destruct (Total_Value da !! k) as [tv|] eqn:Htv; [|done].
  cbn in Hra. injection Hra as <-.
  rewrite (lookup_merged_column _ _ _ _ _ Hk Htc).
  rewrite (lookup_merged_column _ _ _ _ _ Hk Hai).
  rewrite (lookup_merged_column _ _ _ _ _ Hk Htv).
  done.
Qed.

Lemma iloc_field (d : DataFrame F) k r :
  iloc d k = Some r →
  Year d !! k = Some (year r)
  ∧ Total_Contributions d !! k = Some (totalContributions r)
  ∧ Accrued_Interest d !! k = Some (accruedInterest r)
  ∧ Total_Value d !! k = Some (totalValue r).
Proof.
  unfold iloc. intros Hr.
  destruct (Year d !! k); [|done].
  destruct (Total_Contributions d !! k); [|done].
  destruct (Accrued_Interest d !! k); [|done].
  destruct (Total_Value d !! k); [|done].
  cbn in Hr. by injection Hr as <-.
Qed.

(** The rows of the merge of two projections, as far as both reach. *)
Lemma iloc_merged_projection r1 i1 c1 r2 i2 c2 (n1 n2 k : nat) :
  (k < n1)%nat → (k < n2)%nat →
  iloc (merged (projection r1 i1 c1 n1) (projection r2 i2 c2 n2)) k
  = Some (mkRow (Z.of_nat (S k))
            (Some (add (contributed c1 (S k)) (contributed c2 (S k))))
            (Some (add (sub (value r1 i1 c1 (S k)) (contributed c1 (S k)))
                       (sub (value r2 i2 c2 (S k)) (contributed c2 (S k)))))
            (Some (add (value r1 i1 c1 (S k)) (value r2 i2 c2 (S k))))).
Proof.
  intros Hk1 Hk2.
  rewrite (iloc_merged _ _ _ _ (iloc_projection r1 i1 c1 n1 k Hk1)).
  destruct (iloc_field _ _ _ (iloc_projection r2 i2 c2 n2 k Hk2))
    as (_ & -> & -> & ->).
  done.
Qed.

Lemma iloc_append_row_l (d : DataFrame F) r k :
  well_formed d → (k < nrows d)%nat →
  iloc (append_row d r) k = iloc d k.
Proof.
  intros (Htc & Hai & Htv) Hk. unfold iloc, append_row, nrows in *. cbn.
  by rewrite !lookup_app_l by lia.
Qed.

Lemma iloc_append_row_r (d : DataFrame F) r :
  well_formed d → iloc (append_row d r) (nrows d) = Some r.
Proof.
  intros (Htc & Hai & Htv). unfold iloc, append_row, nrows in *. cbn.
  rewrite !lookup_app_r by lia.
  rewrite Htc, Hai, Htv, Nat.sub_diag. by destruct r.
Qed.

Lemma nrows_append_row (d : DataFrame F) r :
  nrows (append_row d r) = S (nrows d).
Proof. unfold nrows, append_row. cbn. rewrite length_app. cbn. lia. Qed.
End MergeFacts.

(** ** The composer and the script, run *)

Section ScriptFacts.
Context {F : Type} `{Arith F}.
Local Open Scope arith_scope.
Implicit Types (h : heap F) (l : loc) (d a b : DataFrame F).

Lemma nonempty_column (s : list (cell F)) : (0 < length s)%nat → s ≠ [].
Proof. by destruct s; cbn; [lia|]. Qed.

(** The three objects the composer creates, in order: the copy that
    becomes the merge, the one-row frame, the concatenation. *)
Lemma composer_run h la lb a b tax_rate :
  h !! la = Some a → h !! lb = Some b → (0 < nrows a)%nat →
  let m := merged a b in
  let r := terminal_row m tax_rate in
  let l1 := fresh (dom h) in
  let h1 := <[l1 := m]> h in
  let l2 := fresh (dom h1) in
  let h2 := <[l2 := mkDataFrame [year r] [totalContributions r]
                                [accruedInterest r] [totalValue r]]> h1 in
  let l3 := fresh (dom h2) in
  composer la lb tax_rate h = Ok (l3, <[l3 := composite a b tax_rate]> h2).
Proof.
  intros Ha Hb Hn m r l1 h1 l2 h2 l3. unfold composer.
  rewrite (M_bind_run _ _ _ _ _ (merge_frames_run _ _ _ _ _ Ha Hb)).
  apply taxes_at_the_end_run.
  - apply lookup_insert_eq.
  - apply nonempty_column. cbn. by rewrite length_merged_column.
  - apply nonempty_column. cbn. by rewrite length_merged_column.
Qed.

(** The composer leaves every object of the store it started from as it
    was, and returns an object that was not there. *)
Lemma composer_frame h la lb a b tax_rate :
  h !! la = Some a → h !! lb = Some b → (0 < nrows a)%nat →
  ∃ l h',
    composer la lb tax_rate h = Ok (l, h')
    ∧ h !! l = None
    ∧ h' !! l = Some (composite a b tax_rate)
    ∧ ∀ l0 d, h !! l0 = Some d → h' !! l0 = Some d.
Proof.
  intros Ha Hb Hn.
  pose proof (composer_run h la lb a b tax_rate Ha Hb Hn) as Hrun.
  cbv zeta in Hrun.
  set (h1 := <[fresh (dom h) := merged a b]> h) in *.
  set (h2 := <[fresh (dom h1) := _]> h1) in *.
  assert (∀ l0 d, h !! l0 = Some d → h2 !! l0 = Some d) as Hkeep.
  { intros l0 d Hl0. unfold h2, h1. by do 2 apply lookup_alloc_ne. }
  eexists _, _. split; [exact Hrun|]. split; [|split].
  - destruct (h !! fresh (dom h2)) as [d|] eqn:Hd; [|done].
    apply Hkeep in Hd. by rewrite fresh_lookup in Hd.
  - apply lookup_insert_eq.
  - intros l0 d Hl0. by apply lookup_alloc_ne, Hkeep.
Qed.

(** The script: three projections over 40 years, then the composer. *)
Lemma main_run interest_rate fees_stock fees_3a tax_rate h :
  let rate_stocks := interest_rate ⊖ fees_stock in
  let rate_3a := interest_rate ⊖ fees_3a in
  let d1 := projection rate_stocks (of_int 0) (of_int 7056) 40 in
  let a := projection rate_3a (of_int 0) (of_int 7056) 40 in
  let b := projection rate_stocks (of_int 0) (of_int 7056 ⊗ tax_rate) 40 in
  ∃ data_result data_result_3a data_result_tax_benefit total_3a_result h',
    main interest_rate fees_stock fees_3a tax_rate h
    = Ok ((data_result, data_result_3a, data_result_tax_benefit,
           total_3a_result), h')
    ∧ h' !! data_result = Some d1
    ∧ h' !! data_result_3a = Some a
    ∧ h' !! data_result_tax_benefit = Some b
    ∧ h' !! total_3a_result = Some (composite a b tax_rate)
    ∧ (∀ l0 d, h !! l0 = Some d → h' !! l0 = Some d).
Proof.
  intros rate_stocks rate_3a d1 a b. unfold main.
  fold rate_stocks rate_3a.
  change 40 with (Z.of_nat 40).
  rewrite !calculate_compounding_nat. fold d1 a b.
  set (l1 := fresh (dom h)). set (h1 := <[l1 := d1]> h).
  set (l2 := fresh (dom h1)). set (h2 := <[l2 := a]> h1).
  set (l3 := fresh (dom h2)). set (h3 := <[l3 := b]> h2).
  assert (h3 !! l1 = Some d1) as H1.
  { unfold h3, h2. do 2 apply lookup_alloc_ne. apply lookup_insert_eq. }
  assert (h3 !! l2 = Some a) as H2.
  { unfold h3. apply lookup_alloc_ne. apply lookup_insert_eq. }
  assert (h3 !! l3 = Some b) as H3 by apply lookup_insert_eq.
  destruct (composer_frame h3 l2 l3 a b tax_rate H2 H3)
    as (l & h' & Hrun & Hnew & Htot & Hkeep).
  { unfold a. rewrite nrows_projection. lia. }
  exists l1, l2, l3, l, h'. split; [|repeat split; auto].
  - unfold mbind, M_bind, lift, alloc. fold l1 h1 l2 h2 l3 h3.
    by rewrite Hrun.
  - intros l0 d Hl0. apply Hkeep. unfold h3, h2, h1.
    by do 3 apply lookup_alloc_ne.
Qed.
End ScriptFacts.

(** * The properties of the specification *)

Section ProjectionClaims.
Context {F : Type} `{Arith F}.
Local Open Scope arith_scope.

(** C1.  For a horizon [n_years > 0], [calculate_compounding] returns a
    series of exactly [n_years] rows, the years are 1..n_years and strictly
    increasing, and the total value of row [i] is [value i] of the
    recurrence [value 0 = initial],
    [value i = value (i-1) * (1 + rate) + contribution]; year 0 is not in
    the output. *)
Theorem calculate_compounding_series
    (rate initial contribution : F) (n_years : Z) :
  0 < n_years →
  ∃ d,
    calculate_compounding rate initial contribution n_years = Ok d
    ∧ nrows d = Z.to_nat n_years
    ∧ well_formed d
    ∧ Year d = seqZ 1 n_years
    ∧ (∀ j k yj yk, (j < k)%nat →
         Year d !! j = Some yj → Year d !! k = Some yk → yj < yk)
    ∧ (∀ i, 1 ≤ i ≤ n_years →
         ∃ r, iloc d (Z.to_nat (i - 1)) = Some r
              ∧ year r = i
              ∧ totalValue r
                = Some (value rate initial contribution (Z.to_nat i)))
    ∧ iloc d (Z.to_nat n_years) = None.
Proof.
  intros Hn. eexists. split; [by apply calculate_compounding_nonneg; lia|].
  split; [apply nrows_projection|].
  split; [apply well_formed_projection|].
  split; [cbn; by rewrite Z2Nat.id by lia|].
  split; [|split].
  - intros j k yj yk Hjk. cbn [projection Year]. rewrite !lookup_seqZ.
    intros [-> _] [-> _]. lia.
  - intros i Hi. eexists. split.
    + apply iloc_projection. lia.
    + cbn [year totalValue]. split; [lia|]. do 2 f_equal. lia.
  - by apply iloc_projection_None.
Qed.

(** C6, as the code has it.  [calculate_compounding] fails exactly for the
    negative horizons: with numpy's ValueError (negative dimension in
    [np.zeros]) below -1, with IndexError (the store into element 0 of an
    empty array) at -1; for every horizon from 0 on it returns the series,
    which is empty at 0. *)
Theorem calculate_compounding_fails_iff_negative
    (rate initial contribution : F) (n_years : Z) :
  calculate_compounding rate initial contribution n_years
  = if bool_decide (n_years < -1) then Raise ValueError
    else if bool_decide (n_years = -1) then Raise IndexError
    else Ok (projection rate initial contribution (Z.to_nat n_years)).
Proof.
  repeat case_bool_decide; subst.
  - by apply calculate_compounding_below.
  - apply calculate_compounding_minus_one.
  - apply calculate_compounding_nonneg. lia.
Qed.
End ProjectionClaims.

Lemma calculate_compounding_series_witness :
  ∃ d : DataFrame float,
    calculate_compounding 0.5%float 0%float 100%float 2 = Ok d
    ∧ nrows d = Z.to_nat 2
    ∧ well_formed d
    ∧ Year d = seqZ 1 2
    ∧ (∀ j k yj yk, (j < k)%nat →
         Year d !! j = Some yj → Year d !! k = Some yk → yj < yk)
    ∧ (∀ i, 1 ≤ i ≤ 2 →
         ∃ r, iloc d (Z.to_nat (i - 1)) = Some r
              ∧ year r = i
              ∧ totalValue r
                = Some (value 0.5%float 0%float 100%float (Z.to_nat i)))
    ∧ iloc d (Z.to_nat 2) = None.
Proof. apply (calculate_compounding_series 0.5%float 0%float 100%float 2). lia. Defined.

(** C6 as stated fails at the horizon 0: the call returns the empty series. *)
Lemma calculate_compounding_zero_years :
  0 ≤ 0
  ∧ calculate_compounding 0%float 0%float 1000%float 0
    = Ok (mkDataFrame [] [] [] [])
  ∧ ¬ (∀ (rate initial contribution : float) (n_years : Z),
         n_years ≤ 0 →
         ∃ e, calculate_compounding rate initial contribution n_years
              = Raise e).
Proof.
  split; [lia|]. split; [reflexivity|].
  intros Hclaim.
  destruct (Hclaim 0%float 0%float 1000%float 0) as [e He]; [lia|].
  discriminate He.
Qed.

Section AlgebraicClaims.
Context {F : Type} `{ArithLaws F}.
Local Open Scope arith_scope.

Add Ring arith_ring_claims : arith_ring.


(** In every row of a series that [calculate_compounding] returns all three
    fields hold a number and the total value is the sum of the other two. *)
Lemma projection_balanced (rate initial contribution : F) (n_years : Z) d k r :
  calculate_compounding rate initial contribution n_years = Ok d →
  iloc d k = Some r →
  ∃ tc ai tv,
    totalContributions r = Some tc ∧ accruedInterest r = Some ai
    ∧ totalValue r = Some tv ∧ tv = tc ⊕ ai.
Proof.
  intros [Hn ->]%calculate_compounding_Ok Hr.
  pose proof (iloc_Some_lt _ _ _ Hr) as Hk. rewrite nrows_projection in Hk.
  rewrite iloc_projection in Hr by done. injection Hr as <-.
  eexists _, _, _. repeat split. cbn [value]. ring.
Qed.

(** The merge keeps the balance: a row of the merge whose three fields hold a
    number is the sum of two such rows. *)
Lemma merged_balanced (a b : DataFrame F) :
  balanced a → balanced b → well_formed a → well_formed b →
  balanced (merged a b).
Proof.
  intros Ha Hb Hwa (Hbtc & Hbai & Hbtv) k r Hr tc ai tv Htc Hai Htv.
  pose proof (iloc_Some_lt _ _ _ Hr) as Hk. rewrite nrows_merged in Hk.
  destruct (iloc_is_Some a k Hwa Hk) as [ra Hra].
  rewrite (iloc_merged _ _ _ _ Hra) in Hr. injection Hr as <-.
  cbn [totalContributions accruedInterest totalValue] in Htc, Hai, Htv.
  destruct (Total_Contributions b !! k) as [[btc|]|] eqn:Hbtc';
    destruct (totalContributions ra) as [atc|] eqn:Hatc; try done.
  destruct (Accrued_Interest b !! k) as [[bai|]|] eqn:Hbai';
    destruct (accruedInterest ra) as [aai|] eqn:Haai; try done.
  destruct (Total_Value b !! k) as [[btv|]|] eqn:Hbtv';
    destruct (totalValue ra) as [atv|] eqn:Hatv; try done.
  cbn in Htc, Hai, Htv. simplify_eq.
  rewrite (Ha k ra Hra atc aai atv) by done.
  assert (is_Some (Year b !! k)) as [y Hy].
  { apply lookup_lt_is_Some. apply lookup_lt_Some in Hbtc'.
    unfold nrows in Hbtc. lia. }
  rewrite (Hb k (mkRow y (Some btc) (Some bai) (Some btv)) ltac:(unfold iloc;
    by rewrite Hy, Hbtc', Hbai', Hbtv') btc bai btv) by done.
  ring.
Qed.
Lemma composite_balanced (a b : DataFrame F) tax_rate :
  balanced a → balanced b → well_formed a → well_formed b →
  balanced (composite a b tax_rate).
Proof.
  intros Ha Hb Hwa Hwb k r Hr. unfold composite in Hr.
  pose proof (well_formed_merged a b) as Hwm.
  destruct (decide (k < nrows (merged a b))%nat) as [Hk|Hk].
  - rewrite iloc_append_row_l in Hr by done.
    by eapply (merged_balanced a b).
  - pose proof (iloc_Some_lt _ _ _ Hr) as Hk'.
    rewrite nrows_append_row in Hk'.
    replace k with (nrows (merged a b)) in Hr by lia.
    rewrite iloc_append_row_r in Hr by done. injection Hr as <-.
    intros tc ai tv Htc. discriminate Htc.
Qed.

Lemma projection_rows_balanced (rate initial contribution : F) n :
  balanced (projection rate initial contribution n).
Proof.
  intros k r Hr tc ai tv Htc Hai Htv.
  edestruct (projection_balanced rate initial contribution (Z.of_nat n))
    as (tc' & ai' & tv' & Htc' & Hai' & Htv' & Heq);
    [apply calculate_compounding_nat | exact Hr |].
  congruence.
Qed.



End AlgebraicClaims.

Section ComposerClaims.
Context {F : Type} `{Arith F}.
Local Open Scope arith_scope.
Implicit Types (h : heap F) (a b d m : DataFrame F).

Lemma terminal_row_last m tax_rate n r :
  well_formed m → nrows m = S n → iloc m n = Some r →
  terminal_row m tax_rate
  = mkRow 41 None None
          (cell_op sub (totalValue r)
             (cell_op mul (cell_op sub (totalValue r) (totalContributions r))
                      (Some tax_rate))).
Proof.
  intros (Htc & _ & Htv) Hn Hr. unfold terminal_row.
  destruct (iloc_field _ _ _ Hr) as (_ & Hc & _ & Hv).
  rewrite !last_lookup, Htc, Htv, Hn. cbn [Nat.pred]. by rewrite Hc, Hv.
Qed.


(** C7, as the code has it.  The merge step makes no check of lengths and
    does not fail: whatever the lengths of the two series, it returns a
    series with the length and the years of the first; a row whose index
    both series have holds the sums, a row beyond the end of the second
    series holds missing values, and rows of the second series beyond the
    end of the first are dropped. *)
Theorem merge_frames_aligns h data_result_3a data_result_tax_benefit a b :
  h !! data_result_3a = Some a → h !! data_result_tax_benefit = Some b →
  well_formed a → well_formed b →
  ∃ total_3a_result h' m,
    merge_frames data_result_3a data_result_tax_benefit h
    = Ok (total_3a_result, h')
    ∧ h' !! total_3a_result = Some m
    ∧ nrows m = nrows a ∧ Year m = Year a
    ∧ (∀ k ra rb,
         iloc a k = Some ra → iloc b k = Some rb →
         iloc m k
         = Some (mkRow (year ra)
                   (cell_op add (totalContributions ra) (totalContributions rb))
                   (cell_op add (accruedInterest ra) (accruedInterest rb))
                   (cell_op add (totalValue ra) (totalValue rb))))
    ∧ (∀ k ra,
         iloc a k = Some ra → (nrows b ≤ k)%nat →
         iloc m k = Some (mkRow (year ra) None None None)).
Proof.
  intros Ha Hb Hwa (Hbc & Hbi & Hbv).
  eexists _, _, _. split; [by apply merge_frames_run|].
  split; [apply lookup_insert_eq|].
  split; [by rewrite nrows_merged|]. split; [done|]. split.
  - intros k ra rb Hra Hrb.
    destruct (iloc_field _ _ _ Hrb) as (_ & Hc & Hi & Hv).
    rewrite (iloc_merged _ _ _ _ Hra). by rewrite Hc, Hi, Hv.
  - intros k ra Hra Hk. rewrite (iloc_merged _ _ _ _ Hra).
    rewrite !lookup_ge_None_2 by lia. cbn [default].
    by destruct (totalContributions ra), (accruedInterest ra), (totalValue ra).
Qed.

(** C10.  The composer (merge and tax row) changes none of the frames it is
    given: after it, [data_result_3a] and [data_result_tax_benefit] hold what
    they held, as does every other frame of the store, and the composite is
    a new object. *)
Theorem composer_preserves_inputs
    h data_result_3a data_result_tax_benefit a b tax_rate :
  h !! data_result_3a = Some a → h !! data_result_tax_benefit = Some b →
  (0 < nrows a)%nat →
  ∃ total_3a_result h',
    composer data_result_3a data_result_tax_benefit tax_rate h
    = Ok (total_3a_result, h')
    ∧ h' !! data_result_3a = Some a
    ∧ h' !! data_result_tax_benefit = Some b
    ∧ h !! total_3a_result = None
    ∧ total_3a_result ≠ data_result_3a
    ∧ total_3a_result ≠ data_result_tax_benefit
    ∧ h' !! total_3a_result = Some (composite a b tax_rate)
    ∧ ∀ l0 d, h !! l0 = Some d → h' !! l0 = Some d.
Proof.
  intros Ha Hb Hn.
  destruct (composer_frame h _ _ a b tax_rate Ha Hb Hn)
    as (l & h' & Hrun & Hnew & Htot & Hkeep).
  exists l, h'. repeat split; auto; intros ->; congruence.
Qed.

(** C5.  After the merge the script appends exactly one row: the composite
    has 40 + 1 rows, its first 40 rows are those of the merge, and its last
    row has the year 40 + 1, no totalContributions and no accruedInterest,
    and the totalValue [tv - tax] with [tax = gain * tax_rate] and
    [gain = tv - tc], where [tv] and [tc] are totalValue and
    totalContributions of the last row of the merge. *)
Theorem terminal_tax_row (interest_rate fees_stock fees_3a tax_rate : F) h :
  ∃ l1 l2 l3 total_3a_result h' d m,
    main interest_rate fees_stock fees_3a tax_rate h
    = Ok ((l1, l2, l3, total_3a_result), h')
    ∧ h' !! total_3a_result = Some d
    ∧ m = merged (projection (interest_rate ⊖ fees_3a) (of_int 0)
                             (of_int 7056) 40)
                 (projection (interest_rate ⊖ fees_stock) (of_int 0)
                             (of_int 7056 ⊗ tax_rate) 40)
    ∧ nrows m = 40%nat
    ∧ nrows d = (40 + 1)%nat
    ∧ (∀ k, (k < 40)%nat → iloc d k = iloc m k)
    ∧ (∃ tc ai tv,
         iloc m 39 = Some (mkRow 40 (Some tc) (Some ai) (Some tv))
         ∧ let gain := tv ⊖ tc in
           let tax := gain ⊗ tax_rate in
           iloc d 40 = Some (mkRow (40 + 1) None None (Some (tv ⊖ tax))))
    ∧ iloc d 41 = None.
Proof.
  destruct (main_run interest_rate fees_stock fees_3a tax_rate h)
    as (l1 & l2 & l3 & l & h' & Hrun & _ & _ & _ & Htot & _).
  exists l1, l2, l3, l, h'. eexists _, _.
  split; [exact Hrun|]. split; [exact Htot|]. split; [reflexivity|].
  set (m := merged _ _).
  assert (nrows m = 40%nat) as Hm
    by (unfold m; by rewrite nrows_merged, nrows_projection).
  assert (well_formed m) as Hwm by apply well_formed_merged.
  assert (iloc m 39 = Some _) as H39
    by (apply iloc_merged_projection; lia).
  split; [done|]. unfold composite. fold m.
  split; [rewrite nrows_append_row; lia|].
  split; [by intros k Hk; apply iloc_append_row_l; [|lia]|].
  split.
  - eexists _, _, _. split; [exact H39|]. cbv zeta.
    rewrite (terminal_row_last m tax_rate 39 _ Hwm Hm H39).
    rewrite <-Hm at 1. by rewrite iloc_append_row_r.
  - destruct (iloc (append_row m _) 41) as [r|] eqn:Hr; [|done].
    apply iloc_Some_lt in Hr. rewrite nrows_append_row in Hr. lia.
Qed.
End ComposerClaims.

(** ** The theorems at concrete inputs *)

Import Examples.





Lemma example_frames_are_projections :
  calculate_compounding 0.5%float 0%float 100%float 2 = Ok ex_3a
  ∧ calculate_compounding 0%float 0%float 10%float 2 = Ok ex_benefit
  ∧ calculate_compounding 0%float 0%float 10%float 1 = Ok ex_short.
Proof. repeat split; reflexivity. Qed.


Lemma merge_frames_aligns_witness :
  ∃ total_3a_result h' m,
    merge_frames 0%nat 1%nat ex_store_short = Ok (total_3a_result, h')
    ∧ h' !! total_3a_result = Some m
    ∧ nrows m = nrows ex_3a ∧ Year m = Year ex_3a
    ∧ (∀ k ra rb,
         iloc ex_3a k = Some ra → iloc ex_short k = Some rb →
         iloc m k
         = Some (mkRow (year ra)
                   (cell_op add (totalContributions ra) (totalContributions rb))
                   (cell_op add (accruedInterest ra) (accruedInterest rb))
                   (cell_op add (totalValue ra) (totalValue rb))))
    ∧ (∀ k ra,
         iloc ex_3a k = Some ra → (nrows ex_short ≤ k)%nat →
         iloc m k = Some (mkRow (year ra) None None None)).
Proof.
  apply (merge_frames_aligns ex_store_short 0%nat 1%nat ex_3a ex_short);
    try reflexivity; repeat split; reflexivity.
Defined.

Lemma composer_preserves_inputs_witness :
  ∃ total_3a_result h',
    composer 0%nat 1%nat 0.25%float ex_store = Ok (total_3a_result, h')
    ∧ h' !! 0%nat = Some ex_3a
    ∧ h' !! 1%nat = Some ex_benefit
    ∧ ex_store !! total_3a_result = None
    ∧ total_3a_result ≠ 0%nat
    ∧ total_3a_result ≠ 1%nat
    ∧ h' !! total_3a_result = Some (composite ex_3a ex_benefit 0.25%float)
    ∧ ∀ l0 d, ex_store !! l0 = Some d → h' !! l0 = Some d.
Proof.
  apply (composer_preserves_inputs ex_store 0%nat 1%nat ex_3a ex_benefit);
    [reflexivity | reflexivity | cbn; lia].
Defined.

(** ** Where the specification and the code part *)

(** C7 as stated fails on a series of two years and one of one year: the
    merge returns, with missing values in the second row. *)
Lemma merge_frames_different_lengths :
  nrows ex_3a ≠ nrows ex_short
  ∧ ex_store_short !! 0%nat = Some ex_3a
  ∧ ex_store_short !! 1%nat = Some ex_short
  ∧ ∃ total_3a_result h',
      merge_frames 0%nat 1%nat ex_store_short = Ok (total_3a_result, h')
      ∧ h' !! total_3a_result
        = Some (mkDataFrame [1; 2] [Some 110%float; None]
                            [Some 0%float; None] [Some 110%float; None]).
Proof.
  split; [cbn; lia|]. split; [reflexivity|]. split; [reflexivity|].
  eexists _, _. split.
  - apply (merge_frames_run ex_store_short 0%nat 1%nat ex_3a ex_short);
      reflexivity.
  - rewrite lookup_insert_eq. reflexivity.
Qed.


(** ** On binary64 *)

(** The two worked projections of the specification, run on binary64. *)
Example project_flat :
  calculate_compounding 0%float 0%float 1000%float 3
  = Ok (mkDataFrame [1; 2; 3]
          [Some 1000; Some 2000; Some 3000]%float
          [Some 0; Some 0; Some 0]%float
          [Some 1000; Some 2000; Some 3000]%float).
Proof. reflexivity. Qed.

Example project_ten_percent :
  calculate_compounding 0.1%float 0%float 100%float 2
  = Ok (mkDataFrame [1; 2] [Some 100; Some 200]%float [Some 0; Some 10]%float
                    [Some 100; Some 210]%float).
Proof. reflexivity. Qed.

(** Rounding: on binary64 the running sum of six contributions of 0.1 and the
    product 0.1 * 6 differ in the last bit, so the algebraic statements above
    hold there up to rounding only. *)
Example running_sum_rounds :
  contributed 0.1%float 6 = 0.6%float
  ∧ mul 0.1%float (of_int 6) = 0.6000000000000001%float.
Proof. split; reflexivity. Qed.

(** * Further properties of the code *)

(** ** Projections *)

Section ProjectionExtras.
Context {F : Type} `{Arith F}.
Local Open Scope arith_scope.

(** X1.  The rows of a projection do not depend on the horizon: the series
    for [n] years is the series for any longer horizon [m], cut after [n]
    rows. *)
Theorem horizon_prefix (rate initial contribution : F) (n m : Z) :
  0 ≤ n ≤ m →
  ∃ dn dm,
    calculate_compounding rate initial contribution n = Ok dn
    ∧ calculate_compounding rate initial contribution m = Ok dm
    ∧ nrows dn = Z.to_nat n
    ∧ ∀ k, (k < Z.to_nat n)%nat → iloc dm k = iloc dn k.
Proof.
  intros Hnm. eexists _, _.
  split; [apply calculate_compounding_nonneg; lia|].
  split; [apply calculate_compounding_nonneg; lia|].
  split; [apply nrows_projection|].
  intros k Hk. by rewrite !iloc_projection by lia.
Qed.
End ProjectionExtras.

Section AlgebraicExtras.
Context {F : Type} `{ArithLaws F}.
Local Open Scope arith_scope.
Implicit Types (rate initial contribution : F).

Add Ring arith_ring_extras : arith_ring.

Lemma value_zero rate i : value rate (of_int 0) (of_int 0) i = of_int 0.
Proof. induction i as [|i IH]; [done|]. cbn [value]. rewrite IH. ring. Qed.

Lemma value_zero_rate initial contribution i :
  value (of_int 0) initial contribution i
  = initial ⊕ contribution ⊗ of_int (Z.of_nat i).
Proof.
  induction i as [|i IH].
  - change (initial = initial ⊕ contribution ⊗ of_int 0). ring.
  - cbn [value]. rewrite IH, (Nat2Z.inj_succ i), <-Z.add_1_r.
    rewrite of_int_succ by lia. ring.
Qed.

Lemma value_closed_form rate initial contribution i :
  rate ⊗ value rate initial contribution i ⊕ contribution
  = (rate ⊗ initial ⊕ contribution) ⊗ power (of_int 1 ⊕ rate) i.
Proof.
  induction i as [|i IH].
  - cbn [value power]. ring.
  - cbn [power value].
    transitivity ((rate ⊗ value rate initial contribution i ⊕ contribution)
                  ⊗ (of_int 1 ⊕ rate)); [ring|].
    rewrite IH. ring.
Qed.

Lemma value_add rate i1 c1 i2 c2 i :
  value rate (i1 ⊕ i2) (c1 ⊕ c2) i = value rate i1 c1 i ⊕ value rate i2 c2 i.
Proof. induction i as [|i IH]; [done|]. cbn [value]. rewrite IH. ring. Qed.

Lemma contributed_add c1 c2 i :
  contributed (c1 ⊕ c2) i = contributed c1 i ⊕ contributed c2 i.
Proof. rewrite !contributed_mul. ring. Qed.

Lemma value_mono_rate r1 r2 initial contribution i :
  of_int 0 ≼ r1 → r1 ≼ r2 → of_int 0 ≼ initial → of_int 0 ≼ contribution →
  value r1 initial contribution i ≼ value r2 initial contribution i.
Proof.
  intros H1 H12 Hi Hc.
  assert (of_int 0 ≼ r2) as H2 by exact (leb_trans _ _ _ H1 H12).
  induction i as [|i IH]; [apply leb_refl|].
  apply leb_sub_nonneg.
  replace (value r2 initial contribution (S i)
           ⊖ value r1 initial contribution (S i))
    with ((value r2 initial contribution i ⊖ value r1 initial contribution i)
          ⊕ r1 ⊗ (value r2 initial contribution i
                  ⊖ value r1 initial contribution i)
          ⊕ (r2 ⊖ r1) ⊗ value r2 initial contribution i)
    by (cbn [value]; ring).
  pose proof (leb_nonneg_sub _ _ IH).
  pose proof (leb_nonneg_sub _ _ H12).
  pose proof (value_nonneg r2 initial contribution H2 Hi Hc i).
  auto using leb_add_nonneg, leb_mul_nonneg.
Qed.

Lemma contributed_step contribution i :
  of_int 0 ≼ contribution →
  contributed contribution i ≼ contributed contribution (S i).
Proof.
  intros Hc. apply leb_sub_nonneg.
  replace (contributed contribution (S i) ⊖ contributed contribution i)
    with contribution; [done|].
  rewrite !contributed_mul, (Nat2Z.inj_succ i), <-Z.add_1_r.
  rewrite of_int_succ by lia. ring.
Qed.

Lemma contributed_mono contribution i j :
  of_int 0 ≼ contribution → (i ≤ j)%nat →
  contributed contribution i ≼ contributed contribution j.
Proof.
  intros Hc. induction 1 as [|j _ IH]; [apply leb_refl|].
  eapply leb_trans; [exact IH | by apply contributed_step].
Qed.





End AlgebraicExtras.

(** ** Frames, row by row *)

Section FrameFacts.
Context {F : Type} `{Arith F}.
Local Open Scope arith_scope.
Implicit Types (h : heap F) (a b d : DataFrame F).

Lemma iloc_ge_None d k : (nrows d ≤ k)%nat → iloc d k = None.
Proof.
  intros Hk. unfold iloc, nrows in *.
  by rewrite (lookup_ge_None_2 (Year d)) by lia.
Qed.

(** Two well-formed frames with the same rows are the same frame. *)
Lemma frame_ext d1 d2 :
  well_formed d1 → well_formed d2 →
  (∀ k, iloc d1 k = iloc d2 k) → d1 = d2.
Proof.
  intros Hw1 Hw2 Hrows.
  assert (∀ k r, iloc d1 k = Some r → iloc d2 k = Some r) as H12
    by (intros k r; by rewrite Hrows).
  assert (nrows d1 = nrows d2) as Hn.
  { apply Nat.le_antisymm; apply Nat.nlt_ge; intros Hlt.
    - destruct (iloc_is_Some d1 (nrows d2) Hw1 Hlt) as [r Hr].
      apply H12, iloc_Some_lt in Hr. lia.
    - destruct (iloc_is_Some d2 (nrows d1) Hw2 Hlt) as [r Hr].
      rewrite <-Hrows in Hr. apply iloc_Some_lt in Hr. lia. }
  destruct Hw1 as (Hc1 & Hi1 & Hv1), Hw2 as (Hc2 & Hi2 & Hv2).
  assert (∀ k, Year d1 !! k = Year d2 !! k
               ∧ Total_Contributions d1 !! k = Total_Contributions d2 !! k
               ∧ Accrued_Interest d1 !! k = Accrued_Interest d2 !! k
               ∧ Total_Value d1 !! k = Total_Value d2 !! k) as Hcols.
  { intros k. destruct (decide (k < nrows d1)%nat) as [Hk|Hk].
    - destruct (iloc_is_Some d1 k) as [r Hr]; [done..|].
      destruct (iloc_field _ _ _ Hr) as (-> & -> & -> & ->).
      destruct (iloc_field _ _ _ (H12 _ _ Hr)) as (-> & -> & -> & ->).
      done.
    - unfold nrows in *. by rewrite !lookup_ge_None_2 by lia. }
  destruct d1 as [y1 c1 i1 v1], d2 as [y2 c2 i2 v2]. cbn in *.
  f_equal; apply list_eq; intros k; by destruct (Hcols k) as (? & ? & ? & ?).
Qed.

Lemma merged_column_nil (xs ys : list (cell F)) : merged_column 0 xs ys = [].
Proof. apply nil_length_inv, length_merged_column. Qed.

(** The last row of a merge where the second series is the shorter one. *)
Lemma iloc_merged_beyond a b k ra :
  well_formed b → iloc a k = Some ra → (nrows b ≤ k)%nat →
  iloc (merged a b) k = Some (mkRow (year ra) None None None).
Proof.
  intros (Hc & Hi & Hv) Hra Hk. rewrite (iloc_merged _ _ _ _ Hra).
  rewrite !lookup_ge_None_2 by lia. cbn [default].
  by destruct (totalContributions ra), (accruedInterest ra), (totalValue ra).
Qed.

(** The last two rows of the composite of two projections over [S n]
    years. *)
Lemma iloc_composite_last r1 i1 c1 r2 i2 c2 n tax_rate :
  let tc := contributed c1 (S n) ⊕ contributed c2 (S n) in
  let tv := value r1 i1 c1 (S n) ⊕ value r2 i2 c2 (S n) in
  let d := composite (projection r1 i1 c1 (S n)) (projection r2 i2 c2 (S n))
                     tax_rate in
  iloc d n
  = Some (mkRow (Z.of_nat (S n)) (Some tc)
            (Some ((value r1 i1 c1 (S n) ⊖ contributed c1 (S n))
                   ⊕ (value r2 i2 c2 (S n) ⊖ contributed c2 (S n))))
            (Some tv))
  ∧ iloc d (S n)
    = Some (mkRow 41 None None (Some (tv ⊖ (tv ⊖ tc) ⊗ tax_rate))).
Proof.
  intros tc tv d. unfold d, composite.
  set (m := merged _ _).
  assert (nrows m = S n) as Hm
    by (unfold m; by rewrite nrows_merged, nrows_projection).
  assert (well_formed m) as Hwm by apply well_formed_merged.
  assert (iloc m n = Some _) as Hlast
    by (apply iloc_merged_projection; lia).
  split.
  - rewrite iloc_append_row_l by (done || lia). exact Hlast.
  - rewrite (terminal_row_last m tax_rate n _ Hwm Hm Hlast).
    match goal with
    | |- iloc (append_row _ ?r) _ = _ =>
        pose proof (iloc_append_row_r m r Hwm) as Hr
    end.
    rewrite Hm in Hr. exact Hr.
Qed.

Lemma iloc_composite_before r1 i1 c1 r2 i2 c2 n tax_rate k :
  (k < n)%nat →
  iloc (composite (projection r1 i1 c1 n) (projection r2 i2 c2 n) tax_rate) k
  = iloc (merged (projection r1 i1 c1 n) (projection r2 i2 c2 n)) k.
Proof.
  intros Hk. unfold composite. apply iloc_append_row_l.
  - apply well_formed_merged.
  - by rewrite nrows_merged, nrows_projection.
Qed.
End FrameFacts.

(** ** The composer at its edges *)

Section ComposerExtras.
Context {F : Type} `{Arith F}.
Local Open Scope arith_scope.
Implicit Types (h : heap F) (a b d : DataFrame F).

(** X8.  On a first series without rows the composer raises IndexError: the
    merge is empty and [iloc[-1]] has no row to address. *)
Theorem composer_empty_raises
    h data_result_3a data_result_tax_benefit a b tax_rate :
  h !! data_result_3a = Some a → h !! data_result_tax_benefit = Some b →
  nrows a = 0%nat →
  composer data_result_3a data_result_tax_benefit tax_rate h
  = Raise IndexError.
Proof.
  intros Ha Hb Hn. unfold composer.
  rewrite (M_bind_run _ _ _ _ _ (merge_frames_run _ _ _ _ _ Ha Hb)).
  unfold taxes_at_the_end, mbind, M_bind.
  erewrite df_iloc_empty; [done|apply lookup_insert_eq|].
  cbn [get_column merged Total_Value]. rewrite Hn. apply merged_column_nil.
Qed.

(** X9.  When the second series is shorter than the first, the composer
    does not fail but the terminal row it appends has no total value: the
    last row of the merge holds missing values and they propagate through
    gain and tax. *)
Theorem composer_short_second_series
    h data_result_3a data_result_tax_benefit a b tax_rate :
  h !! data_result_3a = Some a → h !! data_result_tax_benefit = Some b →
  well_formed a → well_formed b → (nrows b < nrows a)%nat →
  ∃ total_3a_result h' d,
    composer data_result_3a data_result_tax_benefit tax_rate h
    = Ok (total_3a_result, h')
    ∧ h' !! total_3a_result = Some d
    ∧ nrows d = S (nrows a)
    ∧ (∃ r, iloc d (Nat.pred (nrows a)) = Some r
            ∧ totalContributions r = None ∧ accruedInterest r = None
            ∧ totalValue r = None)
    ∧ iloc d (nrows a) = Some (mkRow 41 None None None).
Proof.
  intros Ha Hb Hwa Hwb Hlt.
  destruct (composer_frame h _ _ a b tax_rate Ha Hb)
    as (l & h' & Hrun & _ & Htot & _); [lia|].
  exists l, h'. eexists. split; [exact Hrun|]. split; [exact Htot|].
  unfold composite.
  pose proof (well_formed_merged a b) as Hwm.
  destruct (iloc_is_Some a (Nat.pred (nrows a)) Hwa) as [ra Hra]; [lia|].
  pose proof (iloc_merged_beyond a b _ ra Hwb Hra) as Hlast.
  split; [by rewrite nrows_append_row, nrows_merged|]. split.
  - eexists. rewrite iloc_append_row_l;
      [|done|rewrite nrows_merged; lia].
    split; [apply Hlast; lia|done].
  - rewrite (terminal_row_last (merged a b) tax_rate (Nat.pred (nrows a))
               (mkRow (year ra) None None None));
      [|done|rewrite nrows_merged; lia|apply Hlast; lia].
    rewrite <-(nrows_merged a b). by apply iloc_append_row_r.
Qed.

(** The script with the references it creates.  *)
Lemma main_run_fresh interest_rate fees_stock fees_3a tax_rate h :
  ∃ l1 l2 l3 l4 h',
    main interest_rate fees_stock fees_3a tax_rate h
    = Ok ((l1, l2, l3, l4), h')
    ∧ NoDup [l1; l2; l3; l4]
    ∧ (∀ l, l ∈ [l1; l2; l3; l4] → h !! l = None)
    ∧ h' !! l1 = Some (projection (interest_rate ⊖ fees_stock) (of_int 0)
                                  (of_int 7056) 40)
    ∧ h' !! l2 = Some (projection (interest_rate ⊖ fees_3a) (of_int 0)
                                  (of_int 7056) 40)
    ∧ h' !! l3 = Some (projection (interest_rate ⊖ fees_stock) (of_int 0)
                                  (of_int 7056 ⊗ tax_rate) 40)
    ∧ h' !! l4
      = Some (composite
                (projection (interest_rate ⊖ fees_3a) (of_int 0)
                            (of_int 7056) 40)
                (projection (interest_rate ⊖ fees_stock) (of_int 0)
                            (of_int 7056 ⊗ tax_rate) 40)
                tax_rate)
    ∧ (∀ l0 d, h !! l0 = Some d → h' !! l0 = Some d).
Proof.
  unfold main. change 40 with (Z.of_nat 40).
  rewrite !calculate_compounding_nat.
  set (d1 := projection (interest_rate ⊖ fees_stock) _ (of_int 7056) 40).
  set (a := projection (interest_rate ⊖ fees_3a) _ _ 40).
  set (b := projection _ _ (of_int 7056 ⊗ tax_rate) 40).
  set (l1 := fresh (dom h)). set (h1 := <[l1 := d1]> h).
  set (l2 := fresh (dom h1)). set (h2 := <[l2 := a]> h1).
  set (l3 := fresh (dom h2)). set (h3 := <[l3 := b]> h2).
  assert (h1 !! l1 = Some d1) as H11 by apply lookup_insert_eq.
  assert (h2 !! l1 = Some d1) as H21 by (by apply lookup_alloc_ne).
  assert (h2 !! l2 = Some a) as H22 by apply lookup_insert_eq.
  assert (h3 !! l1 = Some d1) as H31 by (by apply lookup_alloc_ne).
  assert (h3 !! l2 = Some a) as H32 by (by apply lookup_alloc_ne).
  assert (h3 !! l3 = Some b) as H33 by apply lookup_insert_eq.
  assert (∀ l0 d, h !! l0 = Some d → h3 !! l0 = Some d) as Hkeep3.
  { intros l0 d Hl0. unfold h3, h2, h1. by do 3 apply lookup_alloc_ne. }
  destruct (composer_frame h3 l2 l3 a b tax_rate H32 H33)
    as (l4 & h' & Hrun & Hnew & Htot & Hkeep).
  { unfold a. rewrite nrows_projection. lia. }
  exists l1, l2, l3, l4, h'.
  assert (h !! l1 = None) as Hn1 by apply fresh_lookup.
  assert (h1 !! l2 = None) as Hn2 by apply fresh_lookup.
  assert (h2 !! l3 = None) as Hn3 by apply fresh_lookup.
  assert (l1 ≠ l2) as N12 by (intros Heq; rewrite Heq in H11; congruence).
  assert (l1 ≠ l3) as N13 by (intros Heq; rewrite Heq in H21; congruence).
  assert (l2 ≠ l3) as N23 by (intros Heq; rewrite Heq in H22; congruence).
  assert (l1 ≠ l4) as N14 by (intros Heq; rewrite Heq in H31; congruence).
  assert (l2 ≠ l4) as N24 by (intros Heq; rewrite Heq in H32; congruence).
  assert (l3 ≠ l4) as N34 by (intros Heq; rewrite Heq in H33; congruence).
  split; [|split; [|split; [|repeat split; auto]]].
  - unfold mbind, M_bind, lift, alloc. fold l1 h1 l2 h2 l3 h3.
    by rewrite Hrun.
  - repeat (apply NoDup_cons; split;
              [rewrite ?elem_of_cons, elem_of_nil; intros Hin;
               decompose [or] Hin; first [congruence | done]|]).
    apply NoDup_nil_2.
  - intros l Hl.
    destruct (h !! l) as [d|] eqn:Hd; [|done].
    pose proof (Hkeep3 _ _ Hd) as Hd3.
    assert (h1 !! l = Some d) as Hd1 by (by apply lookup_alloc_ne).
    assert (h2 !! l = Some d) as Hd2 by (by apply lookup_alloc_ne).
    set_unfold in Hl. destruct Hl as [->|[->|[->|[->|[]]]]]; congruence.
Qed.

(** X12.  Whatever the four rates and the store, the script runs through
    without an error and creates four distinct new frames: the Option 1
    projection, the 3a projection, the tax-benefit projection (each over 40
    years) and the composite; the frames that existed before are
    unchanged. *)
Theorem main_runs (interest_rate fees_stock fees_3a tax_rate : F) h :
  ∃ data_result data_result_3a data_result_tax_benefit total_3a_result h',
    main interest_rate fees_stock fees_3a tax_rate h
    = Ok ((data_result, data_result_3a, data_result_tax_benefit,
           total_3a_result), h')
    ∧ NoDup [data_result; data_result_3a; data_result_tax_benefit;
             total_3a_result]
    ∧ (∀ l, l ∈ [data_result; data_result_3a; data_result_tax_benefit;
                 total_3a_result] → h !! l = None)
    ∧ (∃ d1 d2 d3 d4,
         h' !! data_result = Some d1 ∧ h' !! data_result_3a = Some d2
         ∧ h' !! data_result_tax_benefit = Some d3
         ∧ h' !! total_3a_result = Some d4
         ∧ calculate_compounding (interest_rate ⊖ fees_stock) (of_int 0)
                                 (of_int 7056) 40 = Ok d1
         ∧ calculate_compounding (interest_rate ⊖ fees_3a) (of_int 0)
                                 (of_int 7056) 40 = Ok d2
         ∧ calculate_compounding (interest_rate ⊖ fees_stock) (of_int 0)
                                 (of_int 7056 ⊗ tax_rate) 40 = Ok d3
         ∧ nrows d1 = 40%nat ∧ nrows d2 = 40%nat ∧ nrows d3 = 40%nat
         ∧ nrows d4 = 41%nat)
    ∧ (∀ l0 d, h !! l0 = Some d → h' !! l0 = Some d).
Proof.
  destruct (main_run_fresh interest_rate fees_stock fees_3a tax_rate h)
    as (l1 & l2 & l3 & l4 & h' & Hrun & Hdup & Hnew & H1 & H2 & H3 & H4
        & Hkeep).
  exists l1, l2, l3, l4, h'.
  split; [done|]. split; [done|]. split; [done|]. split; [|done].
  eexists _, _, _, _. split; [exact H1|]. split; [exact H2|].
  split; [exact H3|]. split; [exact H4|].
  change 40 with (Z.of_nat 40). rewrite !calculate_compounding_nat.
  rewrite !nrows_projection. unfold composite.
  rewrite nrows_append_row, nrows_merged, nrows_projection.
  by repeat split.
Qed.
End ComposerExtras.

(** ** The script under the ring and order laws *)

Section ScriptExtras.
Context {F : Type} `{ArithLaws F}.
Local Open Scope arith_scope.
Implicit Types (h : heap F) (a b d : DataFrame F).

Add Ring arith_ring_script : arith_ring.

Lemma of_nat_nonneg (n : nat) :
  of_int 0 ≼ of_int 1 → of_int 0 ≼ of_int (Z.of_nat n).
Proof.
  intros H01. induction n as [|n IH]; [apply leb_refl|].
  rewrite Nat2Z.inj_succ, <-Z.add_1_r, of_int_succ by lia.
  by apply leb_add_nonneg.
Qed.

Lemma of_int_nonneg (z : Z) :
  of_int 0 ≼ of_int 1 → 0 ≤ z → of_int 0 ≼ of_int z.
Proof.
  intros H01 Hz. rewrite <-(Z2Nat.id z) by done. by apply of_nat_nonneg.
Qed.

Lemma merged_projection_same_rate rate i1 c1 i2 c2 n :
  merged (projection rate i1 c1 n) (projection rate i2 c2 n)
  = projection rate (i1 ⊕ i2) (c1 ⊕ c2) n.
Proof.
  apply frame_ext;
    [apply well_formed_merged | apply well_formed_projection |].
  intros k. destruct (decide (k < n)%nat) as [Hk|Hk].
  - rewrite iloc_merged_projection, iloc_projection by done.
    rewrite value_add, contributed_add. do 3 f_equal. f_equal. ring.
  - rewrite !iloc_ge_None; [done|..].
    + rewrite nrows_projection. lia.
    + rewrite nrows_merged, nrows_projection. lia.
Qed.




End ScriptExtras.

(** ** Charts *)

Section ChartExtras.
Context {F : Type} `{Arith F}.
Local Open Scope arith_scope.
Implicit Types (h : heap F) (d : DataFrame F).

Lemma well_formed_append_row d r : well_formed d → well_formed (append_row d r).
Proof.
  intros (Hc & Hi & Hv). unfold well_formed, nrows, append_row in *. cbn.
  rewrite !length_app. cbn. lia.
Qed.

Lemma df_year_Some h l d : h !! l = Some d → df_year l h = Ok (Year d, h).
Proof.
  intros Hl. unfold df_year.
  by rewrite (M_bind_run _ _ _ _ _ (load_Some _ _ _ Hl)).
Qed.

(** The figure [make_chart_1] draws of a frame. *)
Lemma make_chart_1_run h l d :
  h !! l = Some d →
  make_chart_1 l h
  = Ok (mkFigure
          [Bar (Year d) (Total_Contributions d)
               "Total Contributions" "rgb(55, 83, 109)";
           Bar (Year d) (Accrued_Interest d)
               "Accrued Interest" "rgb(26, 118, 255)";
           Scatter (Year d) (Total_Value d) "Total Value" "lines+markers"
                   "rgb(0, 204, 150)" 10 "rgb(0, 204, 150)" 2]
          (mkLayout None (Some "stack") (Some "Year") (Some "Values")
                    (Some true)
                    (Some (mkLegend "top" (99 # 100) "left" (1 # 100)))),
        h).
Proof.
  intros Hl. unfold make_chart_1.
  do 3 (rewrite (M_bind_run _ _ _ _ _ (df_year_Some _ _ _ Hl));
        rewrite (M_bind_run _ _ _ _ _ (df_getitem_Some _ _ _ _ Hl))).
  reflexivity.
Qed.

End ChartExtras.

Section ChartAlgebra.
Context {F : Type} `{ArithLaws F}.
Local Open Scope arith_scope.
Implicit Types (h : heap F) (d : DataFrame F).

Add Ring arith_ring_chart : arith_ring.

End ChartAlgebra.

(** ** The numbers of the conclusion *)

Section Formatting.
Local Open Scope char_scope.

Abbreviation not_comma := (λ c : ascii, c ≠ ",").

Lemma digits_no_comma (d : Decimal.uint) :
  Forall not_comma (String.list_ascii_of_string (NilEmpty.string_of_uint d)).
Proof. induction d; cbn; constructor; done. Qed.

Lemma filter_digits (ds : list ascii) :
  Forall not_comma ds → filter not_comma ds = ds.
Proof.
  induction 1 as [|c ds Hc _ IH]; [done|].
  by rewrite filter_cons_True, IH.
Qed.

(** Taking the separators out of the grouped digits gives the digits. *)
Lemma filter_group3_reversed (ds : list ascii) :
  Forall not_comma ds → filter not_comma (group3_reversed ds) = ds.
Proof.
  remember (length ds) as n eqn:Hn. revert ds Hn.
  induction n as [n IH] using lt_wf_ind. intros ds -> Hds.
  destruct ds as [|a [|b [|c [|e rest]]]]; try by apply filter_digits.
  change (group3_reversed (a :: b :: c :: e :: rest))
    with (a :: b :: c :: "," :: group3_reversed (e :: rest)).
  apply Forall_cons in Hds as [Ha Hds].
  apply Forall_cons in Hds as [Hb Hds].
  apply Forall_cons in Hds as [Hc Hds].
  rewrite !filter_cons_True by done.
  rewrite filter_cons_False by (intros Hne; by apply Hne).
  rewrite (IH (length (e :: rest))); [done| |done|done].
  cbn. lia.
Qed.

Lemma remove_commas_group3 (s : string) :
  Forall not_comma (String.list_ascii_of_string s) →
  remove_commas (group3 s) = s.
Proof.
  intros Hs. unfold remove_commas, group3.
  rewrite String.list_ascii_of_string_of_list_ascii.
  rewrite filter_reverse, filter_group3_reversed, reverse_involutive.
  - apply String.string_of_list_ascii_of_string.
  - by apply Forall_reverse.
Qed.

Lemma remove_commas_minus (s : string) :
  remove_commas (String "-" s) = String "-" (remove_commas s).
Proof.
  unfold remove_commas. cbn [String.list_ascii_of_string].
  by rewrite filter_cons_True.
Qed.

Lemma int_of_str_str (n : Z) : int_of_str (str n) = Some n.
Proof.
  unfold int_of_str, str.
  assert (NilEmpty.string_of_int (Z.to_int n)
          = NilZero.string_of_int (Z.to_int n)) as ->.
  { destruct n as [|p|p]; [done| |]; cbn;
      pose proof (DecimalPos.Unsigned.to_uint_nonnil p);
      by destruct (Pos.to_uint p). }
  rewrite NilZero.isi.
  - cbn. by rewrite DecimalZ.of_to.
  - destruct n as [|p|p]; cbn; [done| |done].
    intros [= Hp]. by apply (DecimalPos.Unsigned.to_uint_nonnil p).
  - destruct n as [|p|p]; cbn; [done|done|].
    intros [= Hp]. by apply (DecimalPos.Unsigned.to_uint_nonnil p).
Qed.

(** X16.  The separators lose nothing: taking the commas out of the
    formatted number gives the plain decimal numeral [str(n)], and reading
    that back gives [n]. *)
Theorem format_thousands_round_trip (n : Z) :
  remove_commas (format_thousands n) = str n
  ∧ int_of_str (remove_commas (format_thousands n)) = Some n.
Proof.
  assert (remove_commas (format_thousands n) = str n) as Hstr.
  { unfold format_thousands, str.
    destruct (Z.to_int n) as [d|d]; cbn [NilEmpty.string_of_int].
    - apply remove_commas_group3, digits_no_comma.
    - rewrite remove_commas_minus. f_equal.
      apply remove_commas_group3, digits_no_comma. }
  split; [done|]. rewrite Hstr. apply int_of_str_str.
Qed.
End Formatting.

(** ** The further properties at concrete inputs *)

Import MoreExamples.

Lemma horizon_prefix_witness :
  ∃ dn dm : DataFrame float,
    calculate_compounding 0.5%float 0%float 100%float 1 = Ok dn
    ∧ calculate_compounding 0.5%float 0%float 100%float 2 = Ok dm
    ∧ nrows dn = Z.to_nat 1
    ∧ ∀ k, (k < Z.to_nat 1)%nat → iloc dm k = iloc dn k.
Proof. apply (horizon_prefix 0.5%float 0%float 100%float 1 2). lia. Defined.







Lemma composer_empty_raises_witness :
  composer 0%nat 1%nat 0.25%float ex_store_empty = Raise IndexError.
Proof.
  apply (composer_empty_raises ex_store_empty 0%nat 1%nat
           (mkDataFrame [] [] [] []) ex_benefit 0.25%float);
    reflexivity.
Defined.

Lemma composer_short_second_series_witness :
  ∃ total_3a_result h' (d : DataFrame float),
    composer 0%nat 1%nat 0.25%float ex_store_short = Ok (total_3a_result, h')
    ∧ h' !! total_3a_result = Some d
    ∧ nrows d = S (nrows ex_3a)
    ∧ (∃ r, iloc d (Nat.pred (nrows ex_3a)) = Some r
            ∧ totalContributions r = None ∧ accruedInterest r = None
            ∧ totalValue r = None)
    ∧ iloc d (nrows ex_3a) = Some (mkRow 41 None None None).
Proof.
  apply (composer_short_second_series ex_store_short 0%nat 1%nat
           ex_3a ex_short 0.25%float);
    first [reflexivity | by repeat split | cbn; lia].
Defined.




